(** * src/uri/uri.ts: parsing and rebuilding of meeting URIs

    A shallow embedding of the functions of [src/uri/uri.ts] and the
    properties of them that the specification states.

    JavaScript strings are sequences of UTF-16 code units; they are modelled
    as lists of numbers.  The regular expressions of the module are all
    anchored at the start of the subject, so each of them is embedded as a
    function from the subject to the optional pair of its first capture group
    and [lastIndex]. *)

From Stdlib Require Import Ascii String.
From Stdlib Require Import List NArith ZArith Bool Lia.
Import ListNotations.

Local Open Scope Z_scope.

(** ** Strings *)

Definition jsstring : Type := list N.

Definition code (a : ascii) : N := N_of_ascii a.

Arguments code : simpl never.

(** The string with the code units of an ASCII literal. *)
Definition str (s : string) : jsstring := map code (list_ascii_of_string s).

Definition jsstring_eqb (a b : jsstring) : bool :=
  if list_eq_dec N.eq_dec a b then true else false.

Definition len (s : jsstring) : Z := Z.of_nat (length s).

(** [s.substring(start)] and [s.substring(start, end)]: both indices are
    clamped to [0, s.length] and swapped when [start > end]. *)
Definition clamp (s : jsstring) (i : Z) : nat :=
  Z.to_nat (Z.min (Z.max i 0) (len s)).

Definition substring (s : jsstring) (from : Z) : jsstring :=
  skipn (clamp s from) s.

Definition substring2 (s : jsstring) (from to : Z) : jsstring :=
  let a := clamp s from in
  let b := clamp s to in
  firstn (Nat.max a b - Nat.min a b) (skipn (Nat.min a b) s).

Fixpoint startsWith (p s : jsstring) : bool :=
  match p, s with
  | [], _ => true
  | c :: p', d :: s' => N.eqb c d && startsWith p' s'
  | _ :: _, [] => false
  end.

Definition endsWith (p s : jsstring) : bool :=
  startsWith (rev p) (rev s).

(** [s.indexOf(p)] searched from the front of [s]; [-1] when absent. *)
Fixpoint indexOf (p s : jsstring) : Z :=
  if startsWith p s then 0
  else match s with
       | [] => -1
       | _ :: s' => let i := indexOf p s' in if i =? -1 then -1 else 1 + i
       end.

(** [s.indexOf(p, pos)]. *)
Definition indexOfFrom (p s : jsstring) (pos : Z) : Z :=
  let k := clamp s pos in
  let i := indexOf p (skipn k s) in
  if i =? -1 then -1 else Z.of_nat k + i.

(** [s.lastIndexOf(c)] for a one-unit string [c]. *)
Fixpoint lastIndexOf (c : N) (s : jsstring) : Z :=
  match s with
  | [] => -1
  | d :: s' =>
      let i := lastIndexOf c s' in
      if i =? -1 then (if N.eqb c d then 0 else -1) else 1 + i
  end.

(** Truthiness of a string ([""] is falsy) and of an optional string
    ([undefined] is falsy). *)
Definition nonempty (s : jsstring) : bool :=
  match s with [] => false | _ :: _ => true end.

Definition truthy (o : option jsstring) : bool :=
  match o with Some s => nonempty s | None => false end.

(** [a || b] on optional strings. *)
Definition or_else (a b : option jsstring) : option jsstring :=
  if truthy a then a else b.

(** [s || ""]. *)
Definition or_empty (a : option jsstring) : jsstring :=
  match a with Some s => s | None => [] end.

(** ** Character classes *)

Definition in_range (lo hi c : N) : bool := (N.leb lo c && N.leb c hi)%bool.

(** [[a-z]] under the [i] flag: without the [u] flag no code unit outside
    ASCII is case-folded onto an ASCII letter. *)
Definition is_alpha (c : N) : bool :=
  (in_range (code "a") (code "z") c || in_range (code "A") (code "Z") c)%bool.

Definition is_digit (c : N) : bool := in_range (code "0") (code "9") c.

(** [[a-z0-9\.\+-]] under the [i] flag. *)
Definition is_scheme_char (c : N) : bool :=
  (is_alpha c || is_digit c
   || N.eqb c (code ".") || N.eqb c (code "+") || N.eqb c (code "-"))%bool.

(** [\s]: the white space and line terminator code units of ECMAScript. *)
Definition is_space (c : N) : bool :=
  (in_range 9 13 c || N.eqb c 32 || N.eqb c 160 || N.eqb c 5760
   || in_range 8192 8202 c || N.eqb c 8232 || N.eqb c 8233
   || N.eqb c 8239 || N.eqb c 8287 || N.eqb c 12288 || N.eqb c 65279)%bool.

(** [_ROOM_EXCLUDE_PATTERN] is a character class; this is the list of its
    members. *)
Definition _ROOM_EXCLUDE_PATTERN : jsstring :=
  str ":?#[]@!$&'()*+,;=></" ++ [34%N (* the double quote *)].

Definition is_excluded (c : N) : bool := existsb (N.eqb c) _ROOM_EXCLUDE_PATTERN.

(** [String.prototype.toLowerCase] on the strings it is applied to in this
    module, which are matches of [URI_PROTOCOL_PATTERN] and hence ASCII. *)
Definition lower (c : N) : N :=
  if in_range (code "A") (code "Z") c then (c + 32)%N else c.

Definition toLowerCase (s : jsstring) : jsstring := map lower s.

(** ** The regular expressions *)

(** [[a-z0-9\.\+-]*:] at the front of [s]: the number of code units matched.
    The star is greedy, and giving units back cannot help because [:] is not
    in the class. *)
Fixpoint scheme_tail (s : jsstring) : option nat :=
  match s with
  | [] => None
  | c :: s' =>
      if N.eqb c (code ":") then Some 1%nat
      else if is_scheme_char c then option_map S (scheme_tail s')
      else None
  end.

(** [[a-z][a-z0-9\.\+-]*:] at the front of [s]. *)
Definition scheme_at (s : jsstring) : option nat :=
  match s with
  | [] => None
  | c :: s' => if is_alpha c then option_map S (scheme_tail s') else None
  end.

(** [new RegExp(URI_PROTOCOL_PATTERN, 'gi').exec(s)]: the first group and
    [lastIndex]. *)
Definition exec_URI_PROTOCOL (s : jsstring) : option (jsstring * Z) :=
  match scheme_at s with
  | Some n => Some (firstn n s, Z.of_nat n)
  | None => None
  end.

(** The greedy repetition of the group in [URI_PROTOCOL_PATTERN + '+']: at
    most [rounds] iterations from the front of [s]; the group holds the
    capture of the last iteration.  The second component is the number of
    code units matched. *)
Fixpoint schemes_at (rounds : nat) (s : jsstring) : option (jsstring * nat) :=
  match rounds with
  | O => None
  | S rounds' =>
      match scheme_at s with
      | None => None
      | Some n =>
          match schemes_at rounds' (skipn n s) with
          | Some (g, m) => Some (g, (n + m)%nat)
          | None => Some (firstn n s, n)
          end
      end
  end.

(** [new RegExp(`${ URI_PROTOCOL_PATTERN }+`, 'gi').exec(s)]: every iteration
    consumes at least two code units, so [length s] rounds are never used
    up. *)
Definition exec_URI_PROTOCOL_plus (s : jsstring) : option (jsstring * Z) :=
  match schemes_at (length s) s with
  | Some (g, n) => Some (g, Z.of_nat n)
  | None => None
  end.

(** The longest prefix of [s] whose code units all satisfy [p]. *)
Fixpoint run (p : N -> bool) (s : jsstring) : jsstring :=
  match s with
  | c :: s' => if p c then c :: run p s' else []
  | [] => []
  end.

Definition is_authority_char (c : N) : bool :=
  negb (N.eqb c (code "/") || N.eqb c (code "?") || N.eqb c (code "#")).

Definition is_path_char (c : N) : bool :=
  negb (N.eqb c (code "?") || N.eqb c (code "#")).

(** [exec] of the anchored [_URI_AUTHORITY_PATTERN] on [s]: two slashes and a
    non-empty run of code units other than [/], [?] and [#]. *)
Definition exec_URI_AUTHORITY (s : jsstring) : option (jsstring * Z) :=
  if startsWith (str "//") s then
    match run is_authority_char (skipn 2 s) with
    | [] => None
    | a => Some (str "//" ++ a, 2 + len a)
    end
  else None.

(** [exec] of the anchored [_URI_PATH_PATTERN] on [s]: a possibly empty run
    of code units other than [?] and [#], so the match never fails. *)
Definition exec_URI_PATH (s : jsstring) : option (jsstring * Z) :=
  let p := run is_path_char s in Some (p, len p).

(** ** [_fixRoom], [_fixURIStringScheme], [getLocationContextRoot] *)

Definition _fixRoom (room : option jsstring) : option jsstring :=
  match room with
  | Some r => if nonempty r
              then Some (filter (fun c => negb (is_excluded c)) r)
              else room
  | None => room
  end.

Definition _fixURIStringScheme (uri : jsstring) : jsstring :=
  match exec_URI_PROTOCOL_plus uri with
  | Some (g, lastIndex) =>
      let protocol := toLowerCase g in
      let protocol :=
        if negb (jsstring_eqb protocol (str "http:"))
           && negb (jsstring_eqb protocol (str "https:"))
        then str "https:" else protocol in
      let uri := substring uri lastIndex in
      if startsWith (str "//") uri then protocol ++ uri else uri
  | None => uri
  end.

Definition getLocationContextRoot (pathname : jsstring) : jsstring :=
  let contextRootEndIndex := lastIndexOf (code "/") pathname in
  if contextRootEndIndex =? -1 then str "/"
  else substring2 pathname 0 (contextRootEndIndex + 1).

(** ** [parseStandardURIString] *)

Module Uri.
(** The type [Uri] without its [toString] member, which is the same
    function [_standardURIToString] in every record. *)
Record t : Type := mk {
  hash : jsstring;
  host : option jsstring;
  hostname : option jsstring;
  pathname : jsstring;
  port : option jsstring;
  protocol : option jsstring;
  search : jsstring
  }.
End Uri.

Definition parseStandardURIString (str0 : jsstring) : Uri.t :=
  let s := filter (fun c => negb (is_space c)) str0 in
  (* protocol *)
  let '(protocol, s) :=
    match exec_URI_PROTOCOL s with
    | Some (m1, lastIndex) => (Some (toLowerCase m1), substring s lastIndex)
    | None => (None, s)
    end in
  (* authority *)
  let '(host, port, hostname, s) :=
    match exec_URI_AUTHORITY s with
    | Some (m1, lastIndex) =>
        let authority := substring m1 2 in
        let s := substring s lastIndex in
        let userinfoEndIndex := indexOf (str "@") authority in
        let authority :=
          if negb (userinfoEndIndex =? -1)
          then substring authority (userinfoEndIndex + 1) else authority in
        let host := authority in
        let portBeginIndex := lastIndexOf (code ":") authority in
        let '(port, authority) :=
          if negb (portBeginIndex =? -1)
          then (Some (substring authority (portBeginIndex + 1)),
                substring2 authority 0 portBeginIndex)
          else (None, authority) in
        (Some host, port, Some authority, s)
    | None => (None, None, None, s)
    end in
  (* pathname *)
  let '(pathname, s) :=
    match exec_URI_PATH s with
    | Some (m1, lastIndex) => (Some m1, substring s lastIndex)
    | None => (None, s)
    end in
  let pathname :=
    if truthy pathname then
      let p := or_empty pathname in
      if startsWith (str "/") p then p else str "/" ++ p
    else str "/" in
  (* query *)
  let '(search, s) :=
    if startsWith (str "?") s then
      let hashBeginIndex := indexOfFrom (str "#") s 1 in
      let hashBeginIndex :=
        if hashBeginIndex =? -1 then len s else hashBeginIndex in
      (substring2 s 0 hashBeginIndex, substring s hashBeginIndex)
    else ([], s) in
  (* fragment *)
  let hash := if startsWith (str "#") s then s else [] in
  Uri.mk hash host hostname pathname port protocol search.

(** ** [parseURIString] *)

Record UriExtended : Type := {
  uri : Uri.t;
  contextRoot : jsstring;
  room : option jsstring
}.

Definition set_pathname (u : Uri.t) (p : jsstring) : Uri.t :=
  Uri.mk (Uri.hash u) (Uri.host u) (Uri.hostname u) p (Uri.port u)
         (Uri.protocol u) (Uri.search u).

(** Strict equality of two values that are strings or [undefined]. *)
Definition strict_eqb (a b : option jsstring) : bool :=
  match a, b with
  | Some x, Some y => jsstring_eqb x y
  | None, None => true
  | _, _ => false
  end.

(** The argument is [None] when it is not a string. *)
Definition parseURIString (arg : option jsstring) : option UriExtended :=
  match arg with
  | None => None
  | Some s =>
      let obj := parseStandardURIString (_fixURIStringScheme s) in
      let contextRoot := getLocationContextRoot (Uri.pathname obj) in
      let pathname := Uri.pathname obj in
      let contextRootEndIndex := lastIndexOf (code "/") pathname in
      let room :=
        let r := substring pathname (contextRootEndIndex + 1) in
        if nonempty r then Some r else None in
      let '(obj, room) :=
        if truthy room then
          let fixedRoom := _fixRoom room in
          if negb (strict_eqb fixedRoom room) then
            let room := fixedRoom in
            (set_pathname obj
               (substring2 pathname 0 (contextRootEndIndex + 1)
                ++ or_empty room),
             room)
          else (obj, room)
        else (obj, room) in
      Some {| uri := obj; contextRoot := contextRoot; room := room |}
  end.

(** ** Completions *)

(** What a call can throw: an exception of a host function, carried as the
    text that [`${ e }`] gives for it, or the [TypeError] of destructuring
    [undefined]. *)
Inductive exn : Type :=
| HostError (text : jsstring)
| DestructureUndefined.

Inductive completion (A : Type) : Type :=
| Normal (a : A)
| Throw (e : exn).

Arguments Normal {A} a.
Arguments Throw {A} e.

Definition exn_text (e : exn) : jsstring :=
  match e with
  | HostError t => t
  | DestructureUndefined => str "TypeError: Cannot destructure 'undefined'"
  end.

(** ** [_standardURIToString] *)

(** [_standardURIToString] is an arrow function, so [this] in its body is not
    the receiver of a call but the [this] of the top level of the module:
    [undefined] where the file is evaluated as an ECMAScript module, and the
    exports object where it is compiled to a CommonJS module.  The exports
    object has none of the properties [hash], [host], [pathname], [protocol]
    and [search]. *)
Inductive ModuleThis : Type :=
| ThisUndefined
| ThisExports.

(** The body of [_standardURIToString] after the destructuring. *)
Definition assemble (hash host pathname protocol search : option jsstring)
  : jsstring :=
  let s := [] in
  let s := if truthy protocol then s ++ or_empty protocol else s in
  let s := if truthy host then s ++ str "//" ++ or_empty host else s in
  let s := s ++ (if truthy pathname then or_empty pathname else str "/") in
  let s := if truthy search then s ++ or_empty search else s in
  let s := if truthy hash then s ++ or_empty hash else s in
  s.

Definition assemble_record (u : Uri.t) : jsstring :=
  assemble (Some (Uri.hash u)) (Uri.host u) (Some (Uri.pathname u))
           (Uri.protocol u) (Some (Uri.search u)).

Definition _standardURIToString (this : ModuleThis) (thiz : option Uri.t)
  : completion jsstring :=
  match thiz with
  | Some u => Normal (assemble_record u)
  | None =>
      match this with
      | ThisUndefined => Throw DestructureUndefined
      | ThisExports => Normal (assemble None None None None None)
      end
  end.

(** [u.toString()]: the member is [_standardURIToString], the call passes no
    argument, and the receiver [u] is not what [this] denotes in the body. *)
Definition Uri_toString (this : ModuleThis) (u : Uri.t) : completion jsstring :=
  _standardURIToString this None.

(** ** [_objectToURLParamsArray] and [urlObjectToString] *)

Module UrlProperties.
Section Bag.
(** [UrlProperties] with the override objects that [urlObjectToString] also
    reads.  The named properties are strings or [undefined], as the type
    says; an override is an object or [undefined].  [V] is the type of the
    values that the override objects hold. *)
Variable V : Type.

(** An object as the list of its enumerable keys, in enumeration order,
    with their values. *)
Definition object : Type := list (jsstring * V).

Record t : Type := mk {
  serverURL : option jsstring;
  room : option jsstring;
  url : option jsstring;
  protocol : option jsstring;
  scheme : option jsstring;
  domain : option jsstring;
  host : option jsstring;
  hostname : option jsstring;
  appLinkScheme : option jsstring;
  roomName : option jsstring;
  jwt : option jsstring;
  configOverwrite : option object;
  config : option object;
  configOverride : option object;
  interfaceConfigOverwrite : option object;
  interfaceConfig : option object;
  interfaceConfigOverride : option object;
  devicesOverwrite : option object;
  devices : option object;
  devicesOverride : option object
  }.
End Bag.
Arguments mk {V}.
Arguments serverURL {V}.
Arguments room {V}.
Arguments url {V}.
Arguments protocol {V}.
Arguments scheme {V}.
Arguments domain {V}.
Arguments host {V}.
Arguments hostname {V}.
Arguments appLinkScheme {V}.
Arguments roomName {V}.
Arguments jwt {V}.
Arguments configOverwrite {V}.
Arguments config {V}.
Arguments configOverride {V}.
Arguments interfaceConfigOverwrite {V}.
Arguments interfaceConfig {V}.
Arguments interfaceConfigOverride {V}.
Arguments devicesOverwrite {V}.
Arguments devices {V}.
Arguments devicesOverride {V}.
End UrlProperties.

(** [a || b] on values that are objects or [undefined]. *)
Definition or_object {A : Type} (a b : option A) : option A :=
  match a with Some _ => a | None => b end.

Definition set_protocol (u : Uri.t) (p : option jsstring) : Uri.t :=
  Uri.mk (Uri.hash u) (Uri.host u) (Uri.hostname u) (Uri.pathname u)
         (Uri.port u) p (Uri.search u).

Definition set_authority (u : Uri.t) (host hostname port : option jsstring)
  : Uri.t :=
  Uri.mk (Uri.hash u) host hostname (Uri.pathname u) port (Uri.protocol u)
         (Uri.search u).

Definition set_search (u : Uri.t) (q : jsstring) : Uri.t :=
  Uri.mk (Uri.hash u) (Uri.host u) (Uri.hostname u) (Uri.pathname u)
         (Uri.port u) (Uri.protocol u) q.

Definition set_hash (u : Uri.t) (h : jsstring) : Uri.t :=
  Uri.mk h (Uri.host u) (Uri.hostname u) (Uri.pathname u) (Uri.port u)
         (Uri.protocol u) (Uri.search u).

(** [a.join(sep)]. *)
Fixpoint join (sep : jsstring) (a : list jsstring) : jsstring :=
  match a with
  | [] => []
  | [x] => x
  | x :: a' => x ++ sep ++ join sep a'
  end.

Section Host.

(** What the module takes from its host: the values that override objects
    hold, [JSON.stringify] on them (which returns a string or [undefined], or
    throws), [encodeURIComponent] (which throws on a lone surrogate),
    [new URL(relative, base).toString()] (which throws when the pair does not
    make a URL), and the [this] of the top level of the module. *)
Variable V : Type.
Variable JSON_stringify : V -> completion (option jsstring).
Variable encodeURIComponent : jsstring -> completion jsstring.
Variable URL_toString : jsstring -> jsstring -> completion jsstring.
Variable this : ModuleThis.

Local Abbreviation bag := (UrlProperties.t V).
Local Abbreviation object := (UrlProperties.object V).

(** [encodeURIComponent( JSON.stringify( v ) )]; an [undefined] argument of
    [encodeURIComponent] is converted to the string ["undefined"]. *)
Definition encode_value (v : V) : completion jsstring :=
  match JSON_stringify v with
  | Throw e => Throw e
  | Normal (Some j) => encodeURIComponent j
  | Normal None => encodeURIComponent (str "undefined")
  end.

(** The result is the pair of what was passed to [console.warn], in order,
    and the returned array. *)
Fixpoint params_of (obj : object) : list jsstring * list jsstring :=
  match obj with
  | [] => ([], [])
  | (key, v) :: obj' =>
      let '(warned, params) := params_of obj' in
      match encode_value v with
      | Normal e => (warned, (key ++ str "=" ++ e) :: params)
      | Throw e =>
          ((str "Error encoding " ++ key ++ str ": " ++ exn_text e) :: warned,
           params)
      end
  end.

Definition _objectToURLParamsArray (obj : option object)
  : list jsstring * list jsstring :=
  params_of (match obj with Some ob => ob | None => [] end).

(** The first statement of [urlObjectToString]: the value of [tmp]. *)
Definition base_string (o : bag) : completion jsstring :=
  if truthy (UrlProperties.serverURL o) && truthy (UrlProperties.room o) then
    URL_toString (or_empty (UrlProperties.room o))
                 (or_empty (UrlProperties.serverURL o))
  else if truthy (UrlProperties.room o) then
    Normal (or_empty (UrlProperties.room o))
  else
    Normal (or_empty (UrlProperties.url o)).

(** One round of the loop over the prefixes, on the pair of the warnings so
    far and [hash]. *)
Definition add_overrides (urlPrefix : jsstring) (obj : option object)
  (st : list jsstring * jsstring) : list jsstring * jsstring :=
  let '(log, hash) := st in
  let '(warned, urlParamsArray) := _objectToURLParamsArray obj in
  let log := log ++ warned in
  match urlParamsArray with
  | [] => (log, hash)
  | _ :: _ =>
      let urlParamsString :=
        urlPrefix ++ str "."
        ++ join (str "&" ++ urlPrefix ++ str ".") urlParamsArray in
      let '(urlParamsString, hash) :=
        if nonempty hash then (str "&" ++ urlParamsString, hash)
        else (urlParamsString, str "#") in
      (log, hash ++ urlParamsString)
  end.

(** [urlObjectToString] is embedded by its parts, in the order of its
    comments: [protocol], [authority & pathname], [pathname], [query/search]
    and [fragment/hash]. *)

Definition step_protocol (o : bag) (url : Uri.t) : Uri.t :=
  if negb (truthy (Uri.protocol url)) then
    let protocol :=
      or_else (UrlProperties.protocol o) (UrlProperties.scheme o) in
    if truthy protocol then
      let protocol :=
        if endsWith (str ":") (or_empty protocol) then or_empty protocol
        else or_empty protocol ++ str ":" in
      set_protocol url (Some protocol)
    else url
  else url.

(** The result is [url] and the local [pathname]. *)
Definition step_authority (o : bag) (url : Uri.t) : Uri.t * jsstring :=
  let pathname := Uri.pathname url in
  if negb (truthy (Uri.host url)) then
    let domain :=
      or_else (or_else (UrlProperties.domain o) (UrlProperties.host o))
              (UrlProperties.hostname o) in
    if truthy domain && truthy (UrlProperties.appLinkScheme o) then
      let parsed :=
        parseStandardURIString
          (_fixURIStringScheme
             (or_empty (UrlProperties.appLinkScheme o) ++ str "//"
              ++ or_empty domain)) in
      let contextRoot := Uri.pathname parsed in
      let url :=
        if truthy (Uri.host parsed)
        then set_authority url (Uri.host parsed) (Uri.hostname parsed)
                           (Uri.port parsed)
        else url in
      (url,
       if jsstring_eqb pathname (str "/")
          && negb (jsstring_eqb contextRoot (str "/"))
       then contextRoot else pathname)
    else (url, pathname)
  else (url, pathname).

Definition step_room (o : bag) (url : Uri.t) (pathname : jsstring) : Uri.t :=
  let room := or_else (UrlProperties.roomName o) (UrlProperties.room o) in
  let pathname :=
    if truthy room
       && (endsWith (str "/") (Uri.pathname url)
           || negb (endsWith (str "/" ++ or_empty room) (Uri.pathname url)))
    then
      (if endsWith (str "/") pathname then pathname else pathname ++ str "/")
      ++ or_empty room
    else pathname in
  set_pathname url pathname.

Definition step_jwt (o : bag) (url : Uri.t) : Uri.t :=
  let jwt := UrlProperties.jwt o in
  if truthy jwt then
    let search := Uri.search url in
    if (indexOf (str "?jwt=") search =? -1)
       && (indexOf (str "&jwt=") search =? -1)
    then
      let search :=
        if startsWith (str "?") search then search else str "?" ++ search in
      let search := if len search =? 1 then search else search ++ str "&" in
      let search := search ++ str "jwt=" ++ or_empty jwt in
      set_search url search
    else url
  else url.

(** The result is what was passed to [console.warn] and [url]. *)
Definition step_overrides (o : bag) (url : Uri.t) : list jsstring * Uri.t :=
  let st := ([], Uri.hash url) in
  let st :=
    add_overrides (str "config")
      (or_object (or_object (UrlProperties.configOverwrite o)
                            (UrlProperties.config o))
                 (UrlProperties.configOverride o)) st in
  let st :=
    add_overrides (str "interfaceConfig")
      (or_object (or_object (UrlProperties.interfaceConfigOverwrite o)
                            (UrlProperties.interfaceConfig o))
                 (UrlProperties.interfaceConfigOverride o)) st in
  let st :=
    add_overrides (str "devices")
      (or_object (or_object (UrlProperties.devicesOverwrite o)
                            (UrlProperties.devices o))
                 (UrlProperties.devicesOverride o)) st in
  (fst st, set_hash url (snd st)).

(** [urlObjectToString] from the parse of [tmp] up to the assignment of
    [url.hash]: the warnings and the record [url] on which [toString] is then
    called. *)
Definition url_record (o : bag) (tmp : jsstring) : list jsstring * Uri.t :=
  let url := parseStandardURIString (_fixURIStringScheme tmp) in
  let url := step_protocol o url in
  let '(url, pathname) := step_authority o url in
  let url := step_room o url pathname in
  let url := step_jwt o url in
  step_overrides o url.

(** The result is the pair of what was passed to [console.warn] and the
    completion of the call; a returned [None] is [undefined]. *)
Definition urlObjectToString (o : bag)
  : list jsstring * completion (option jsstring) :=
  match base_string o with
  | Throw e => ([], Throw e)
  | Normal tmp =>
      let '(log, url) := url_record o tmp in
      (log,
       match Uri_toString this url with
       | Normal s => Normal (if nonempty s then Some s else None)
       | Throw e => Throw e
       end)
  end.

(** ** [toURLString] *)

(** The arguments of [toURLString] by the cases it tells apart. *)
Inductive js_value : Type :=
| VString (s : jsstring)
| VURL (href : jsstring)
| VObject (o : bag)
| VOther.

Definition toURLString (obj : js_value)
  : list jsstring * completion (option jsstring) :=
  match obj with
  | VURL href => ([], Normal (Some href))
  | VObject o => urlObjectToString o
  | VString s => ([], Normal (Some s))
  | VOther => ([], Normal None)
  end.

End Host.

Arguments encode_value {V}.
Arguments params_of {V}.
Arguments _objectToURLParamsArray {V}.
Arguments base_string {V}.
Arguments add_overrides {V}.
Arguments step_protocol {V}.
Arguments step_authority {V}.
Arguments step_room {V}.
Arguments step_jwt {V}.
Arguments step_overrides {V}.
Arguments url_record {V}.
Arguments urlObjectToString {V}.
Arguments VString {V}.
Arguments VURL {V}.
Arguments VObject {V}.
Arguments VOther {V}.
Arguments toURLString {V}.

(** The property bag with no property. *)
Definition empty_bag {V : Type} : UrlProperties.t V :=
  UrlProperties.mk None None None None None None None None None None None
                   None None None None None None None None None.

(** [{ serverURL, room }]. *)
Definition bag_serverURL_room {V : Type} (serverURL room : jsstring)
  : UrlProperties.t V :=
  UrlProperties.mk (Some serverURL) (Some room) None None None None None None
                   None None None None None None None None None None None None.

(** [{ url }]. *)
Definition bag_url {V : Type} (url : jsstring) : UrlProperties.t V :=
  UrlProperties.mk None None (Some url) None None None None None None None
                   None None None None None None None None None None.

(** [{ room, jwt }]. *)
Definition bag_room_jwt {V : Type} (room jwt : jsstring) : UrlProperties.t V :=
  UrlProperties.mk None (Some room) None None None None None None None None
                   (Some jwt) None None None None None None None None None.

(** ** Notions of the specification *)

(** A scheme prefix in the words of the specification: a letter, then
    letters, digits, [.], [+] or [-], then [:]. *)
Definition is_scheme (t : jsstring) : bool :=
  match t with
  | [] => false
  | c :: r =>
      is_alpha c
      && match rev r with
         | [] => false
         | l :: b => N.eqb l (code ":") && forallb is_scheme_char b
         end
  end.

(** Some prefix of [s] is a scheme prefix. *)
Definition leading_scheme (s : jsstring) : bool :=
  existsb (fun n => is_scheme (firstn n s)) (seq 0 (S (length s))).

(** The retained scheme in the words of the specification: replaced by
    [https:] unless it is exactly [http:] or [https:]. *)
Definition keep_exact (t : jsstring) : jsstring :=
  if jsstring_eqb t (str "http:") || jsstring_eqb t (str "https:")
  then t else str "https:".

(** The retained scheme with the comparison made on its lower-case form,
    which is also what is kept. *)
Definition keep_folded (t : jsstring) : jsstring :=
  let p := toLowerCase t in
  if jsstring_eqb p (str "http:") || jsstring_eqb p (str "https:")
  then p else str "https:".

(** The result that the specification gives for a chain [tokens] of scheme
    prefixes followed by [rest]: the last prefix, fixed by [keep], goes back
    in front of [rest] exactly when [rest] starts with [//]. *)
Definition SchemeFixer_spec (keep : jsstring -> jsstring)
  (tokens : list jsstring) (rest : jsstring) : jsstring :=
  if startsWith (str "//") rest then keep (last tokens []) ++ rest else rest.

(** The segment of a path after its last [/]. *)
Definition final_segment (pathname : jsstring) : jsstring :=
  substring pathname (lastIndexOf (code "/") pathname + 1).

(** * Properties *)

(** ** Strings *)

Lemma jsstring_eqb_eq (a b : jsstring) : jsstring_eqb a b = true <-> a = b.
Proof.
  unfold jsstring_eqb. destruct (list_eq_dec N.eq_dec a b); split; congruence.
Qed.

Lemma startsWith_app (p r : jsstring) : startsWith p (p ++ r) = true.
Proof.
  induction p as [|c p IH]; simpl; [reflexivity|].
  now rewrite N.eqb_refl, IH.
Qed.

Lemma startsWith_inv (p s : jsstring) :
  startsWith p s = true -> exists r, s = p ++ r.
Proof.
  revert s. induction p as [|c p IH]; intros s H.
  - now exists s.
  - destruct s as [|d s]; simpl in H; [discriminate|].
    apply andb_true_iff in H. destruct H as [Hc Hp].
    apply N.eqb_eq in Hc. subst d.
    destruct (IH _ Hp) as [r ->]. now exists r.
Qed.

Lemma clamp_of_nat (s : jsstring) (n : nat) :
  (n <= length s)%nat -> clamp s (Z.of_nat n) = n.
Proof. unfold clamp, len. lia. Qed.

Lemma substring_of_nat (s : jsstring) (n : nat) :
  (n <= length s)%nat -> substring s (Z.of_nat n) = skipn n s.
Proof. intros H. unfold substring. now rewrite clamp_of_nat. Qed.

Lemma substring2_prefix (s : jsstring) (n : nat) :
  (n <= length s)%nat -> substring2 s 0 (Z.of_nat n) = firstn n s.
Proof.
  intros H. unfold substring2. rewrite clamp_of_nat by assumption.
  replace (clamp s 0) with 0%nat by (unfold clamp, len; lia).
  now rewrite Nat.max_0_l, Nat.min_0_l, Nat.sub_0_r.
Qed.

Lemma lastIndexOf_range (c : N) (s : jsstring) :
  lastIndexOf c s = -1 \/ 0 <= lastIndexOf c s < len s.
Proof.
  unfold len. induction s as [|d s IH]; [now left|].
  cbn [lastIndexOf length]. rewrite Nat2Z.inj_succ.
  destruct (lastIndexOf c s =? -1) eqn:E.
  - destruct (N.eqb c d); [right; lia | now left].
  - apply Z.eqb_neq in E. right. lia.
Qed.

Lemma lastIndexOf_head (c : N) (s : jsstring) :
  lastIndexOf c (c :: s) <> -1.
Proof.
  cbn [lastIndexOf]. rewrite N.eqb_refl.
  destruct (lastIndexOf_range c s) as [E|E].
  - rewrite E. discriminate.
  - destruct (lastIndexOf c s =? -1); lia.
Qed.

(** ** Schemes *)

Lemma scheme_tail_app (b r : jsstring) :
  forallb is_scheme_char b = true ->
  scheme_tail (b ++ code ":" :: r) = Some (S (length b)).
Proof.
  induction b as [|c b IH]; simpl; intros H; [reflexivity|].
  apply andb_true_iff in H. destruct H as [Hc Hb].
  destruct (N.eqb c (code ":")) eqn:E.
  - apply N.eqb_eq in E. subst c. discriminate.
  - rewrite Hc, IH by assumption. reflexivity.
Qed.

Lemma scheme_tail_inv (s : jsstring) (n : nat) :
  scheme_tail s = Some n ->
  exists b r, s = b ++ code ":" :: r /\ n = S (length b)
              /\ forallb is_scheme_char b = true.
Proof.
  revert n. induction s as [|c s IH]; simpl; intros n H; [discriminate|].
  destruct (N.eqb c (code ":")) eqn:E.
  - apply N.eqb_eq in E. subst c. injection H as <-.
    now exists [], s.
  - destruct (is_scheme_char c) eqn:Hc; [|discriminate].
    destruct (scheme_tail s) as [m|]; [|discriminate].
    injection H as <-.
    destruct (IH m eq_refl) as (b & r & -> & -> & Hb).
    exists (c :: b), r. simpl. now rewrite Hc, Hb.
Qed.

Lemma is_scheme_inv (t : jsstring) :
  is_scheme t = true ->
  exists c b, t = c :: b ++ [code ":"] /\ is_alpha c = true
              /\ forallb is_scheme_char b = true.
Proof.
  destruct t as [|c r]; simpl; [discriminate|]. intros H.
  apply andb_true_iff in H. destruct H as [Hc H].
  destruct (rev r) as [|l b] eqn:E; [discriminate|].
  apply andb_true_iff in H. destruct H as [Hl Hb].
  apply N.eqb_eq in Hl. subst l.
  exists c, (rev b). repeat split; [|assumption|].
  - f_equal. rewrite <- (rev_involutive r), E. reflexivity.
  - rewrite forallb_forall in *. intros x Hx. apply Hb. now apply in_rev.
Qed.

Lemma is_scheme_intro (c : N) (b : jsstring) :
  is_alpha c = true -> forallb is_scheme_char b = true ->
  is_scheme (c :: b ++ [code ":"]) = true.
Proof.
  intros Hc Hb. simpl. rewrite Hc, rev_app_distr. simpl.
  rewrite forallb_forall in *.
  intros x Hx. apply Hb. now apply in_rev.
Qed.

Lemma scheme_at_app (t r : jsstring) :
  is_scheme t = true -> scheme_at (t ++ r) = Some (length t).
Proof.
  intros H. destruct (is_scheme_inv _ H) as (c & b & -> & Hc & Hb).
  simpl. rewrite Hc, <- app_assoc. simpl.
  rewrite scheme_tail_app by assumption. simpl.
  now rewrite length_app, Nat.add_1_r.
Qed.

Lemma scheme_at_inv (s : jsstring) (n : nat) :
  scheme_at s = Some n ->
  (2 <= n <= length s)%nat /\ is_scheme (firstn n s) = true.
Proof.
  destruct s as [|c s]; simpl; [discriminate|].
  destruct (is_alpha c) eqn:Hc; [|discriminate].
  destruct (scheme_tail s) as [m|] eqn:E; [|discriminate].
  intros H. injection H as <-.
  destruct (scheme_tail_inv _ _ E) as (b & r & -> & -> & Hb).
  split; [rewrite length_app; simpl; lia|].
  rewrite firstn_cons.
  replace (b ++ code ":" :: r) with ((b ++ [code ":"]) ++ r)
    by now rewrite <- app_assoc.
  replace (S (length b)) with (length (b ++ [code ":"]))
    by (rewrite length_app; simpl; lia).
  rewrite firstn_app, firstn_all, Nat.sub_diag. cbn [firstn].
  rewrite app_nil_r. now apply is_scheme_intro.
Qed.

Lemma leading_scheme_false (s : jsstring) :
  leading_scheme s = false <-> scheme_at s = None.
Proof.
  unfold leading_scheme. split.
  - intros H. destruct (scheme_at s) as [n|] eqn:E; [|reflexivity].
    destruct (scheme_at_inv _ _ E) as [Hn Ht].
    assert (X : existsb (fun n => is_scheme (firstn n s))
                        (seq 0 (S (length s))) = true).
    { apply existsb_exists. exists n. split; [|assumption].
      apply in_seq. lia. }
    congruence.
  - intros H.
    destruct (existsb _ _) eqn:E; [|reflexivity].
    apply existsb_exists in E. destruct E as (n & _ & Ht).
    rewrite <- (firstn_skipn n s), (scheme_at_app _ _ Ht) in H.
    discriminate.
Qed.

(** A scheme prefix is made of ASCII code units, on which [toLowerCase]
    changes the capital letters only. *)
Lemma is_scheme_ascii (t : jsstring) :
  is_scheme t = true -> Forall (fun c => (c < 128)%N) t.
Proof.
  intros H. destruct (is_scheme_inv _ H) as (c & b & -> & Hc & Hb).
  assert (A : forall x, is_scheme_char x = true -> (x < 128)%N).
  { intros x. unfold is_scheme_char, is_alpha, is_digit, in_range, code.
    cbn [N_of_ascii N_of_digits N.add N.mul]. intros Hx.
    repeat match goal with
           | H : (_ || _)%bool = true |- _ =>
               apply orb_true_iff in H; destruct H
           | H : (_ && _)%bool = true |- _ =>
               apply andb_true_iff in H; destruct H
           | H : N.leb _ _ = true |- _ => apply N.leb_le in H
           | H : N.eqb _ _ = true |- _ => apply N.eqb_eq in H
           end; lia. }
  constructor.
  - apply A. unfold is_scheme_char. now rewrite Hc.
  - apply Forall_app. split.
    + apply Forall_forall. intros x Hx. apply A.
      rewrite forallb_forall in Hb. now apply Hb.
    + constructor; [|constructor]. reflexivity.
Qed.

(** [length s] rounds are enough: with that many, the repetition stops
    because the rest has no scheme prefix. *)
Lemma schemes_at_rest (rounds : nat) (s g : jsstring) (n : nat) :
  (length s <= rounds)%nat -> schemes_at rounds s = Some (g, n) ->
  (n <= length s)%nat /\ scheme_at (skipn n s) = None.
Proof.
  revert s g n. induction rounds as [|r IH]; intros s g n Hr H;
    [discriminate|].
  cbn [schemes_at] in H.
  destruct (scheme_at s) as [k|] eqn:Ek; [|discriminate].
  destruct (scheme_at_inv _ _ Ek) as [Hk _].
  assert (Hl : (length (skipn k s) <= r)%nat) by (rewrite length_skipn; lia).
  destruct (schemes_at r (skipn k s)) as [[g' m]|] eqn:Er.
  - injection H as <- <-.
    destruct (IH _ _ _ Hl Er) as [Hm Hn].
    rewrite length_skipn in Hm. split; [lia|].
    rewrite skipn_skipn, Nat.add_comm in Hn. exact Hn.
  - injection H as <- <-. split; [lia|].
    destruct r as [|r'].
    + destruct (skipn k s); [reflexivity | simpl in Hl; lia].
    + cbn [schemes_at] in Er.
      destruct (scheme_at (skipn k s)) as [j|]; [|reflexivity].
      destruct (schemes_at r' (skipn j (skipn k s))) as [[? ?]|];
        discriminate.
Qed.

Lemma schemes_at_none (rounds : nat) (s : jsstring) :
  scheme_at s = None -> schemes_at rounds s = None.
Proof. intros H. destruct rounds; simpl; [reflexivity | now rewrite H]. Qed.

(** The repetition on a chain of scheme prefixes followed by a rest without
    one: the group holds the last prefix. *)
Lemma schemes_at_chain (tokens : list jsstring) (rest : jsstring) :
  forall rounds,
  tokens <> [] -> forallb is_scheme tokens = true ->
  scheme_at rest = None -> (length tokens <= rounds)%nat ->
  schemes_at rounds (concat tokens ++ rest)
  = Some (last tokens [], length (concat tokens)).
Proof.
  induction tokens as [|t ts IH]; intros rounds Hne Hts Hrest Hr;
    [contradiction|].
  destruct rounds as [|r]; [simpl in Hr; lia|].
  simpl in Hts. apply andb_true_iff in Hts. destruct Hts as [Ht Hts].
  cbn [schemes_at concat]. rewrite <- app_assoc.
  rewrite (scheme_at_app _ _ Ht), skipn_app, skipn_all, Nat.sub_diag.
  cbn [app skipn].
  destruct ts as [|t' ts'].
  - cbn [concat app]. rewrite (schemes_at_none _ _ Hrest).
    rewrite firstn_app, firstn_all, Nat.sub_diag. cbn [firstn last].
    now rewrite !app_nil_r.
  - rewrite IH; [|discriminate|assumption|assumption|simpl in *; lia].
    rewrite (length_app t). reflexivity.
Qed.

Lemma chain_length (tokens : list jsstring) :
  forallb is_scheme tokens = true ->
  (length tokens <= length (concat tokens))%nat.
Proof.
  induction tokens as [|t ts IH]; simpl; intros H; [lia|].
  apply andb_true_iff in H. destruct H as [Ht Hts].
  destruct (is_scheme_inv _ Ht) as (c & b & -> & _).
  rewrite length_app. simpl. specialize (IH Hts). lia.
Qed.

(** ** [_fixURIStringScheme] *)

Lemma fixScheme_chain (tokens : list jsstring) (rest : jsstring) :
  tokens <> [] -> forallb is_scheme tokens = true ->
  leading_scheme rest = false ->
  _fixURIStringScheme (concat tokens ++ rest)
  = SchemeFixer_spec keep_folded tokens rest.
Proof.
  intros Hne Hts Hrest. apply leading_scheme_false in Hrest.
  unfold _fixURIStringScheme, exec_URI_PROTOCOL_plus.
  rewrite schemes_at_chain; try assumption.
  - rewrite substring_of_nat by (rewrite length_app; lia).
    rewrite skipn_app, skipn_all, Nat.sub_diag. cbn [skipn app].
    unfold SchemeFixer_spec, keep_folded.
    destruct (jsstring_eqb (toLowerCase (last tokens [])) (str "http:"));
      destruct (jsstring_eqb (toLowerCase (last tokens [])) (str "https:"));
      reflexivity.
  - rewrite length_app. pose proof (chain_length _ Hts). lia.
Qed.

Lemma fixScheme_none (s : jsstring) :
  leading_scheme s = false -> _fixURIStringScheme s = s.
Proof.
  intros H. apply leading_scheme_false in H.
  unfold _fixURIStringScheme, exec_URI_PROTOCOL_plus.
  now rewrite schemes_at_none.
Qed.

Example fixURIStringScheme_app_scheme :
  _fixURIStringScheme (str "org.jitsi.meet:https://meet.example.com/r")
  = str "https://meet.example.com/r"
  /\ _fixURIStringScheme (str "org.jitsi.meet://meet.example.com/r")
     = str "https://meet.example.com/r"
  /\ _fixURIStringScheme (str "org.jitsi.meet:r") = str "r"
  /\ _fixURIStringScheme (str "//meet.example.com/r")
     = str "//meet.example.com/r".
Proof. repeat split; reflexivity. Qed.

(** C2, as amended: on a chain of scheme prefixes (matched without regard to
    case) followed by a rest that has no scheme prefix, [_fixURIStringScheme]
    strips the chain and, exactly when the rest starts with [//], puts the
    last prefix back in lower case if that is [http:] or [https:] and
    [https:] otherwise; a string without a leading scheme prefix is returned
    unchanged. *)
Theorem fixURIStringScheme_spec :
  (forall (tokens : list jsstring) (rest : jsstring),
      tokens <> [] -> forallb is_scheme tokens = true ->
      leading_scheme rest = false ->
      _fixURIStringScheme (concat tokens ++ rest)
      = SchemeFixer_spec keep_folded tokens rest)
  /\ (forall s : jsstring,
         leading_scheme s = false -> _fixURIStringScheme s = s).
Proof. split; [exact fixScheme_chain | exact fixScheme_none]. Qed.

Lemma fixURIStringScheme_spec_witness :
  _fixURIStringScheme
    (concat [str "org.jitsi.meet:"; str "HTTPS:"] ++ str "//meet.example.com/r")
  = SchemeFixer_spec keep_folded [str "org.jitsi.meet:"; str "HTTPS:"]
                     (str "//meet.example.com/r")
  /\ _fixURIStringScheme (str "room") = str "room".
Proof.
  split.
  - apply (proj1 fixURIStringScheme_spec);
      [discriminate | reflexivity | reflexivity].
  - apply (proj2 fixURIStringScheme_spec). reflexivity.
Defined.

(** C2 as stated fails: [HTTP:] is not exactly [http:], yet it is kept, in
    lower case, instead of being replaced by [https:]. *)
Lemma fixURIStringScheme_exact_counterexample :
  forallb is_scheme [str "HTTP:"] = true
  /\ leading_scheme (str "//x") = false
  /\ _fixURIStringScheme (concat [str "HTTP:"] ++ str "//x") = str "http://x"
  /\ SchemeFixer_spec keep_exact [str "HTTP:"] (str "//x") = str "https://x"
  /\ _fixURIStringScheme (concat [str "HTTP:"] ++ str "//x")
     <> SchemeFixer_spec keep_exact [str "HTTP:"] (str "//x").
Proof. repeat split; try reflexivity. vm_compute. discriminate. Qed.

(** C7: [_fixURIStringScheme] is idempotent. *)
Theorem fixURIStringScheme_idempotent (s : jsstring) :
  _fixURIStringScheme (_fixURIStringScheme s) = _fixURIStringScheme s.
Proof.
  unfold _fixURIStringScheme at 2 3. unfold exec_URI_PROTOCOL_plus.
  destruct (schemes_at (length s) s) as [[g n]|] eqn:E.
  - destruct (schemes_at_rest _ _ _ _ (Nat.le_refl _) E) as [Hn Hrest].
    rewrite substring_of_nat by assumption.
    set (rest := skipn n s) in *.
    destruct (startsWith (str "//") rest) eqn:Hs.
    + assert (Hp : forall p, p = str "http:" \/ p = str "https:" ->
                   _fixURIStringScheme (p ++ rest) = p ++ rest).
      { intros p Hp.
        rewrite <- (app_nil_r p) at 1. change (p ++ []) with (concat [p]).
        rewrite fixScheme_chain;
          [ | discriminate | destruct Hp as [-> | ->]; reflexivity
            | now apply leading_scheme_false ].
        unfold SchemeFixer_spec. rewrite Hs.
        destruct Hp as [-> | ->]; reflexivity. }
      apply Hp.
      destruct (jsstring_eqb (toLowerCase g) (str "http:")) eqn:E1.
      * apply jsstring_eqb_eq in E1. now left.
      * destruct (jsstring_eqb (toLowerCase g) (str "https:")) eqn:E2.
        -- apply jsstring_eqb_eq in E2. now right.
        -- now right.
    + apply fixScheme_none. now apply leading_scheme_false.
  - unfold _fixURIStringScheme, exec_URI_PROTOCOL_plus. now rewrite E.
Qed.

(** ** [parseStandardURIString] *)

(** The path that [parseStandardURIString] stores, from the first group of
    the match of the path pattern. *)
Lemma pathname_parse (s : jsstring) :
  exists p : jsstring,
    Uri.pathname (parseStandardURIString s)
    = if nonempty p
      then (if startsWith (str "/") p then p else str "/" ++ p)
      else str "/".
Proof.
  unfold parseStandardURIString.
  destruct (exec_URI_PROTOCOL _) as [[m1 i1]|];
    destruct (exec_URI_AUTHORITY _) as [[m2 i2]|];
    unfold exec_URI_PATH; cbv zeta;
    repeat match goal with
           | |- context [let '(_, _) := (if ?c then _ else _) in _] =>
               destruct c
           end;
    cbn [Uri.pathname truthy or_empty]; eexists; reflexivity.
Qed.

Lemma pathname_slash (s : jsstring) :
  exists rest : jsstring,
    Uri.pathname (parseStandardURIString s) = code "/" :: rest.
Proof.
  destruct (pathname_parse s) as [p ->].
  destruct (nonempty p); [|now exists []].
  destruct (startsWith (str "/") p) eqn:E; [|now exists p].
  destruct (startsWith_inv _ _ E) as [r ->]. now exists r.
Qed.

(** C1: [parseStandardURIString] returns a record for every string, and the
    [pathname] of that record starts with [/]. *)
Theorem parseStandardURIString_total (s : jsstring) :
  exists u : Uri.t,
    parseStandardURIString s = u
    /\ startsWith (str "/") (Uri.pathname u) = true
    /\ exists rest : jsstring, Uri.pathname u = code "/" :: rest.
Proof.
  exists (parseStandardURIString s). split; [reflexivity|].
  destruct (pathname_slash s) as [rest E]. rewrite E. split.
  - change (code "/" :: rest) with (str "/" ++ rest). apply startsWith_app.
  - now exists rest.
Qed.

(** The example of the specification, and one with user information and a
    port. *)
Example parseStandardURIString_example :
  parseStandardURIString (str "https://meet.example.com/foo/bar?x=1#hash")
  = Uri.mk (str "#hash") (Some (str "meet.example.com"))
           (Some (str "meet.example.com")) (str "/foo/bar") None
           (Some (str "https:")) (str "?x=1").
Proof. reflexivity. Qed.

Example parseStandardURIString_userinfo_port :
  parseStandardURIString (str "HTTP://me:pw@Meet.example.com:8443 /a b")
  = Uri.mk [] (Some (str "Meet.example.com:8443"))
           (Some (str "Meet.example.com")) (str "/ab") (Some (str "8443"))
           (Some (str "http:")) [].
Proof. reflexivity. Qed.

Example parseStandardURIString_room_only :
  parseStandardURIString (str "room")
  = Uri.mk [] None None (str "/room") None None [].
Proof. reflexivity. Qed.

(** ** [parseURIString] *)

Lemma strict_eqb_eq (a b : option jsstring) : strict_eqb a b = true <-> a = b.
Proof.
  destruct a as [x|], b as [y|]; simpl; try (split; congruence).
  rewrite jsstring_eqb_eq. split; congruence.
Qed.

Lemma contextRoot_of_parsed (s : jsstring) :
  let p := Uri.pathname (parseStandardURIString s) in
  getLocationContextRoot p
  = substring2 p 0 (lastIndexOf (code "/") p + 1).
Proof.
  intros p. unfold getLocationContextRoot.
  destruct (pathname_slash s) as [rest Hp].
  fold p in Hp. rewrite Hp.
  destruct (lastIndexOf (code "/") (code "/" :: rest) =? -1) eqn:E;
    [|reflexivity].
  apply Z.eqb_eq in E. exfalso. exact (lastIndexOf_head _ _ E).
Qed.

(** [parseURIString] by the three cases of its final segment. *)
Lemma parseURIString_cases (s : jsstring) :
  let obj := parseStandardURIString (_fixURIStringScheme s) in
  let p := Uri.pathname obj in
  let seg := final_segment p in
  parseURIString (Some s)
  = Some
      (if nonempty seg then
         if strict_eqb (_fixRoom (Some seg)) (Some seg) then
           {| uri := obj; contextRoot := getLocationContextRoot p;
              room := Some seg |}
         else
           {| uri :=
                set_pathname obj
                  (substring2 p 0 (lastIndexOf (code "/") p + 1)
                   ++ or_empty (_fixRoom (Some seg)));
              contextRoot := getLocationContextRoot p;
              room := _fixRoom (Some seg) |}
       else
         {| uri := obj; contextRoot := getLocationContextRoot p;
            room := None |}).
Proof.
  intros obj p seg. unfold parseURIString. fold obj. fold p.
  fold (final_segment p). fold seg.
  destruct (nonempty seg) eqn:Hseg; cbn [truthy]; rewrite ?Hseg;
    [|reflexivity].
  destruct (strict_eqb (_fixRoom (Some seg)) (Some seg)); reflexivity.
Qed.

(** What [parseURIString] stores as [room]: nothing when the final segment
    is empty, and the sanitized segment otherwise, also when that is the
    empty string. *)
Lemma parseURIString_room (s : jsstring) (r : UriExtended) :
  parseURIString (Some s) = Some r ->
  let seg :=
    final_segment
      (Uri.pathname (parseStandardURIString (_fixURIStringScheme s))) in
  room r = if nonempty seg then _fixRoom (Some seg) else None.
Proof.
  intros H seg. pose proof (parseURIString_cases s) as C. cbv zeta in C.
  fold seg in C. rewrite C in H. clear C. clearbody seg.
  destruct (nonempty seg); [|now injection H as <-].
  destruct (strict_eqb (_fixRoom (Some seg)) (Some seg)) eqn:E;
    injection H as <-; [|reflexivity].
  apply strict_eqb_eq in E. cbn [room]. congruence.
Qed.

(** C3, where it fails: the final segment [!!!] is sanitized to the empty
    string, and [room] is that empty string rather than [undefined]. *)
Theorem parseURIString_room_emptied :
  option_map room (parseURIString (Some (str "https://meet.example.com/!!!")))
  = Some (Some [])
  /\ option_map (fun r => Uri.pathname (uri r))
       (parseURIString (Some (str "https://meet.example.com/!!!")))
     = Some (str "/").
Proof. split; reflexivity. Qed.

(** C4: when sanitizing the final path segment changes it, the returned
    [pathname] is [contextRoot] followed by the sanitized room, which is the
    returned [room]; and [https://meet.example.com/My:Room!] gives the room
    [MyRoom] and the pathname [/MyRoom]. *)
Theorem parseURIString_pathname_consistent :
  (forall (s : jsstring) (r : UriExtended),
      parseURIString (Some s) = Some r ->
      let seg :=
        final_segment
          (Uri.pathname (parseStandardURIString (_fixURIStringScheme s))) in
      _fixRoom (Some seg) <> Some seg ->
      room r = _fixRoom (Some seg)
      /\ Uri.pathname (uri r) = contextRoot r ++ or_empty (room r))
  /\ (exists r : UriExtended,
         parseURIString (Some (str "https://meet.example.com/My:Room!"))
         = Some r
         /\ room r = Some (str "MyRoom")
         /\ Uri.pathname (uri r) = str "/MyRoom").
Proof.
  split.
  - intros s r H seg Hchg.
    pose proof (parseURIString_room s r H) as Hroom. cbv zeta in Hroom.
    fold seg in Hroom.
    assert (Hseg : nonempty seg = true).
    { destruct seg; [now contradiction Hchg | reflexivity]. }
    rewrite Hseg in Hroom. split; [assumption|].
    pose proof (parseURIString_cases s) as C. cbv zeta in C.
    fold seg in C. rewrite C, Hseg in H. clear C.
    pose proof (contextRoot_of_parsed (_fixURIStringScheme s)) as R.
    cbv zeta in R. clearbody seg.
    destruct (strict_eqb (_fixRoom (Some seg)) (Some seg)) eqn:E.
    + apply strict_eqb_eq in E. contradiction.
    + injection H as <-.
      cbn [uri room contextRoot Uri.pathname set_pathname].
      now rewrite R.
  - eexists. split; [reflexivity|]. split; reflexivity.
Qed.

Lemma parseURIString_pathname_consistent_witness :
  exists r : UriExtended,
    parseURIString (Some (str "https://meet.example.com/a/My:Room!")) = Some r
    /\ room r = Some (str "MyRoom")
    /\ Uri.pathname (uri r) = contextRoot r ++ or_empty (room r).
Proof.
  eexists. split; [reflexivity|].
  destruct (proj1 parseURIString_pathname_consistent
              (str "https://meet.example.com/a/My:Room!") _ eq_refl)
    as [Hr Hp].
  - vm_compute. discriminate.
  - split; [exact Hr | exact Hp].
Defined.

(** ** [_standardURIToString] and [toString] *)

(** Whatever the record, [assemble] puts at least the path or [/] in its
    result. *)
Lemma assemble_nonempty (hash host pathname protocol search : option jsstring) :
  assemble hash host pathname protocol search <> [].
Proof.
  unfold assemble. intros H.
  assert (P : (if truthy pathname then or_empty pathname else str "/") <> []).
  { destruct pathname as [[|c p]|]; simpl; discriminate. }
  destruct (truthy hash), (truthy search);
    repeat match goal with
           | H : _ ++ _ = [] |- _ => apply app_eq_nil in H; destruct H
           end; contradiction.
Qed.

(** A call of [toString] on a record does not depend on the record. *)
Lemma Uri_toString_constant (this : ModuleThis) (u : Uri.t) :
  Uri_toString this u
  = match this with
    | ThisUndefined => Throw DestructureUndefined
    | ThisExports => Normal (str "/")
    end.
Proof. destruct this; reflexivity. Qed.

(** ** The round trip of parsing and assembling *)

Lemma filter_all {A} (p : A -> bool) (l : list A) :
  forallb p l = true -> filter p l = l.
Proof.
  induction l as [|a l IH]; simpl; [reflexivity|]. intros H.
  apply andb_true_iff in H. destruct H as [Ha Hl].
  now rewrite Ha, IH.
Qed.

Lemma run_app (p : N -> bool) (a b : jsstring) :
  forallb p a = true -> run p b = [] -> run p (a ++ b) = a.
Proof.
  induction a as [|c a IH]; simpl; intros Ha Hb; [assumption|].
  apply andb_true_iff in Ha. destruct Ha as [Hc Ha].
  now rewrite Hc, IH.
Qed.

Lemma indexOf_unit_absent (c : N) (s : jsstring) :
  ~ In c s -> indexOf [c] s = -1.
Proof.
  induction s as [|d s IH]; intros H; [reflexivity|].
  cbn [indexOf startsWith].
  destruct (N.eqb c d) eqn:E.
  - apply N.eqb_eq in E. subst d. exfalso. apply H. now left.
  - cbn [andb]. rewrite IH; [reflexivity|]. intros X. apply H. now right.
Qed.

Lemma indexOf_unit_first (c : N) (a b : jsstring) :
  ~ In c a -> indexOf [c] (a ++ c :: b) = Z.of_nat (length a).
Proof.
  induction a as [|d a IH]; intros H.
  - cbn [app indexOf startsWith]. now rewrite N.eqb_refl.
  - cbn [app indexOf startsWith length].
    destruct (N.eqb c d) eqn:E.
    + apply N.eqb_eq in E. subst d. exfalso. apply H. now left.
    + cbn [andb]. rewrite IH by (intros X; apply H; now right).
      destruct (Z.of_nat (length a) =? -1) eqn:E1; lia.
Qed.

Lemma substring_app (a b : jsstring) : substring (a ++ b) (len a) = b.
Proof.
  unfold len. rewrite substring_of_nat by (rewrite length_app; lia).
  now rewrite skipn_app, skipn_all, Nat.sub_diag.
Qed.

Lemma substring2_app (a b : jsstring) : substring2 (a ++ b) 0 (len a) = a.
Proof.
  unfold len. rewrite substring2_prefix by (rewrite length_app; lia).
  now rewrite firstn_app, firstn_all, Nat.sub_diag, app_nil_r.
Qed.

Lemma len_app (a b : jsstring) : len (a ++ b) = len a + len b.
Proof. unfold len. rewrite length_app. lia. Qed.

(** X9: The round trip that [toString] is documented to give, on the record
    passed as the argument [thiz]: a string made of a lower-case scheme, an
    authority without user information, a path that starts with [/], a query
    and a fragment, without white space, is parsed and assembled back to
    itself. *)
Lemma assemble_parse_canonical (scheme host path query frag : jsstring) :
    let s := scheme ++ str "//" ++ host ++ path ++ query ++ frag in
    is_scheme scheme = true -> toLowerCase scheme = scheme ->
    nonempty host = true -> forallb is_authority_char host = true ->
    ~ In (code "@") host ->
    startsWith (str "/") path = true -> forallb is_path_char path = true ->
    startsWith (str "?") query = true -> ~ In (code "#") query ->
    startsWith (str "#") frag = true ->
    forallb (fun c => negb (is_space c)) s = true ->
    assemble_record (parseStandardURIString s) = s.
Proof.
  intros s Hsch Hlow Hne Hhost Hat Hpath Hpc Hq Hqh Hf Hsp.
  destruct (startsWith_inv _ _ Hpath) as [p' ->].
  destruct (startsWith_inv _ _ Hq) as [q' ->].
  destruct (startsWith_inv _ _ Hf) as [f' ->].
  unfold parseStandardURIString. rewrite (filter_all _ _ Hsp). subst s.
  assert (E1 : forall r, exec_URI_PROTOCOL (scheme ++ r)
                         = Some (scheme, Z.of_nat (length scheme))).
  { intros r. unfold exec_URI_PROTOCOL. rewrite (scheme_at_app _ _ Hsch).
    now rewrite firstn_app, firstn_all, Nat.sub_diag, app_nil_r. }
  rewrite E1. cbv iota beta.
  rewrite substring_of_nat by (rewrite length_app; lia).
  rewrite skipn_app, skipn_all, Nat.sub_diag. cbn [skipn app].
  assert (E2 : forall r, exec_URI_AUTHORITY (str "//" ++ host ++ str "/" ++ r)
                         = Some (str "//" ++ host, 2 + len host)).
  { intros r. unfold exec_URI_AUTHORITY. rewrite startsWith_app.
    change (skipn 2 (str "//" ++ host ++ str "/" ++ r))
      with (host ++ str "/" ++ r).
    rewrite run_app by (assumption || reflexivity).
    destruct host; [discriminate | reflexivity]. }
  rewrite <- !app_assoc. rewrite E2. cbv iota beta.
  change 2 with (len (str "//")). rewrite <- len_app.
  rewrite (app_assoc (str "//") host), !substring_app.
  change (str "@") with [code "@"].
  rewrite (indexOf_unit_absent _ _ Hat), Z.eqb_refl. cbn [negb].
  assert (E3 : forall r, exec_URI_PATH ((str "/" ++ p') ++ str "?" ++ r)
                         = Some (str "/" ++ p', len (str "/" ++ p'))).
  { intros r. unfold exec_URI_PATH.
    now rewrite run_app by (assumption || reflexivity). }
  assert (E4 : indexOfFrom (str "#") ((str "?" ++ q') ++ str "#" ++ f') 1
               = len (str "?" ++ q')).
  { unfold indexOfFrom.
    replace (clamp _ 1) with 1%nat
      by (unfold clamp, len; rewrite !length_app; simpl; lia).
    cbn [skipn str app map list_ascii_of_string].
    rewrite indexOf_unit_first by (intros X; apply Hqh; now right).
    unfold len. simpl length.
    destruct (Z.of_nat (length q') =? -1) eqn:E; lia. }
  destruct (negb (lastIndexOf (code ":") host =? -1)); cbv iota beta;
    rewrite (app_assoc (str "/") p'), E3; cbv iota beta;
    rewrite substring_app, startsWith_app;
    rewrite (app_assoc (str "?") q'), E4;
    replace (len (str "?" ++ q') =? -1) with false
      by (symmetry; apply Z.eqb_neq; unfold len; lia);
    rewrite substring_app, substring2_app; cbv iota beta;
    rewrite startsWith_app;
    unfold assemble_record, assemble;
    cbn [Uri.hash Uri.host Uri.pathname Uri.protocol Uri.search];
    rewrite Hlow;
    (destruct scheme; [discriminate|]); (destruct host; [discriminate|]);
    cbn [truthy or_empty nonempty startsWith str app map list_ascii_of_string
         N.eqb andb];
    rewrite ?N.eqb_refl; cbn [andb app];
    rewrite <- ?app_assoc; reflexivity.
Qed.

(** C6, where it fails: [toString] is called without an argument, and the
    arrow function [_standardURIToString] does not see the record as [this],
    so the result is a [TypeError] or [/] and never the parsed string; the
    same record passed as the argument is assembled back to the string. *)
Theorem toString_round_trip_fails :
  let s := str "https://meet.example.com/foo/bar?x=1#hash" in
  (forall this : ModuleThis,
      Uri_toString this (parseStandardURIString s) <> Normal s)
  /\ Uri_toString ThisUndefined (parseStandardURIString s)
     = Throw DestructureUndefined
  /\ Uri_toString ThisExports (parseStandardURIString s) = Normal (str "/")
  /\ (forall this : ModuleThis,
         _standardURIToString this (Some (parseStandardURIString s))
         = Normal s).
Proof.
  cbv zeta. repeat split; try reflexivity.
  intros this. rewrite Uri_toString_constant. destruct this; discriminate.
Qed.

(** ** [urlObjectToString] *)

Lemma indexOf_range (p s : jsstring) : indexOf p s = -1 \/ 0 <= indexOf p s.
Proof.
  induction s as [|c s IH]; cbn [indexOf].
  - destruct (startsWith p []); [right; lia | now left].
  - destruct (startsWith p (c :: s)); [right; lia|].
    destruct (indexOf p s =? -1) eqn:E; [now left | right].
    apply Z.eqb_neq in E. lia.
Qed.

(** The query that [parseStandardURIString] cuts off a rest that starts
    with [?] starts with [?] too. *)
Lemma query_shape (s : jsstring) :
  startsWith (str "?") s = true ->
  startsWith (str "?")
    (substring2 s 0
       (if indexOfFrom (str "#") s 1 =? -1 then len s
        else indexOfFrom (str "#") s 1)) = true.
Proof.
  intros H. destruct (startsWith_inv _ _ H) as [r ->].
  set (s := str "?" ++ r).
  set (h := if indexOfFrom (str "#") s 1 =? -1 then len s
            else indexOfFrom (str "#") s 1).
  assert (Hl : len s = 1 + len r).
  { unfold len, s. rewrite length_app.
    change (length (str "?")) with 1%nat. lia. }
  assert (Hh : 1 <= h <= len s).
  { subst h. unfold indexOfFrom.
    replace (clamp s 1) with 1%nat by (unfold clamp, len in *; lia).
    assert (Hi := indexOf_range (str "#") (skipn 1 s)).
    assert (Hj : indexOf (str "#") (skipn 1 s) <= len (skipn 1 s)).
    { generalize (skipn 1 s). intros l. unfold len.
      induction l as [|c l IH]; cbn [indexOf].
      - destruct (startsWith (str "#") []); simpl; lia.
      - destruct (startsWith (str "#") (c :: l)); [lia|].
        cbn [length]. destruct (indexOf (str "#") l =? -1); lia. }
    change (skipn 1 s) with r in *.
    destruct (indexOf (str "#") r =? -1) eqn:E.
    - change (-1 =? -1) with true. cbv iota. unfold len in *. lia.
    - apply Z.eqb_neq in E.
      destruct (Z.of_nat 1 + indexOf (str "#") r =? -1) eqn:E'.
      + apply Z.eqb_eq in E'. lia.
      + unfold len in *. lia. }
  replace h with (Z.of_nat (Z.to_nat h)) by lia.
  rewrite substring2_prefix by (unfold len in *; lia).
  destruct (Z.to_nat h) as [|k] eqn:Ek; [lia|]. reflexivity.
Qed.

Lemma search_parse (s : jsstring) :
  Uri.search (parseStandardURIString s) = []
  \/ startsWith (str "?") (Uri.search (parseStandardURIString s)) = true.
Proof.
  unfold parseStandardURIString.
  destruct (exec_URI_PROTOCOL _) as [[m1 i1]|];
    destruct (exec_URI_AUTHORITY _) as [[m2 i2]|];
    unfold exec_URI_PATH; cbv zeta;
    repeat match goal with
           | |- context [let '(_, _) := (if negb ?c then _ else _) in _] =>
               destruct c; cbn [negb]
           end;
    match goal with
    | |- context [startsWith (str "?") ?x] =>
        destruct (startsWith (str "?") x) eqn:E
    end;
    cbn [Uri.search]; first [now left | right; now apply query_shape].
Qed.

Section HostProperties.

Variable V : Type.
Variable JSON_stringify : V -> completion (option jsstring).
Variable encodeURIComponent : jsstring -> completion jsstring.
Variable URL_toString : jsstring -> jsstring -> completion jsstring.

Local Abbreviation bag := (UrlProperties.t V).
Local Abbreviation record_of :=
  (url_record JSON_stringify encodeURIComponent).
Local Abbreviation stringify :=
  (urlObjectToString JSON_stringify encodeURIComponent URL_toString).

(** *** The base string *)

(** The precedence of the sources of the base string. *)
Lemma base_string_precedence (o : bag) :
  (truthy (UrlProperties.serverURL o) = true ->
   truthy (UrlProperties.room o) = true ->
   base_string URL_toString o
   = URL_toString (or_empty (UrlProperties.room o))
                  (or_empty (UrlProperties.serverURL o)))
  /\ (truthy (UrlProperties.serverURL o) = false ->
      truthy (UrlProperties.room o) = true ->
      base_string URL_toString o = Normal (or_empty (UrlProperties.room o)))
  /\ (truthy (UrlProperties.room o) = false ->
      base_string URL_toString o = Normal (or_empty (UrlProperties.url o))).
Proof.
  unfold base_string. repeat split.
  - intros -> ->. reflexivity.
  - intros -> ->. reflexivity.
  - intros ->. now rewrite andb_false_r.
Qed.

(** *** The query *)

Lemma step_protocol_search (o : bag) (u : Uri.t) :
  Uri.search (step_protocol o u) = Uri.search u.
Proof.
  unfold step_protocol.
  destruct (negb _); [|reflexivity]. destruct (truthy _); reflexivity.
Qed.

Lemma step_authority_search (o : bag) (u : Uri.t) :
  Uri.search (fst (step_authority o u)) = Uri.search u.
Proof.
  unfold step_authority.
  destruct (negb _); [|reflexivity].
  destruct (_ && _); [|reflexivity].
  cbn [fst]. destruct (truthy _); reflexivity.
Qed.

Lemma step_overrides_record (o : bag) (u : Uri.t) :
  exists h : jsstring,
    snd (step_overrides JSON_stringify encodeURIComponent o u) = set_hash u h.
Proof. unfold step_overrides. eexists. reflexivity. Qed.

(** The query of the record on which [toString] is called is the query that
    the [query/search] part makes of the parsed one. *)
Lemma url_record_search (o : bag) (tmp : jsstring) :
  exists u : Uri.t,
    Uri.search u
    = Uri.search (parseStandardURIString (_fixURIStringScheme tmp))
    /\ Uri.search (snd (record_of o tmp)) = Uri.search (step_jwt o u).
Proof.
  unfold url_record.
  set (u0 := parseStandardURIString (_fixURIStringScheme tmp)).
  pose proof (step_authority_search o (step_protocol o u0)) as Ha.
  destruct (step_authority o (step_protocol o u0)) as [u1 p1].
  cbn [fst] in Ha.
  exists (step_room o u1 p1). split.
  - unfold step_room. cbn [set_pathname Uri.search].
    now rewrite Ha, step_protocol_search.
  - destruct (step_overrides_record o (step_jwt o (step_room o u1 p1)))
      as [h ->].
    reflexivity.
Qed.




(** *** Completions of [urlObjectToString] *)

(** A failure of the join is the completion of [urlObjectToString]. *)
Lemma urlObjectToString_join_failure (this : ModuleThis) (o : bag) (e : exn) :
  base_string URL_toString o = Throw e -> stringify this o = ([], Throw e).
Proof. intros H. unfold urlObjectToString. now rewrite H. Qed.

(** After the join, the completion is decided by the [this] of the module
    alone: the record that was built is not read. *)
Lemma urlObjectToString_after_join (this : ModuleThis) (o : bag)
  (tmp : jsstring) :
  base_string URL_toString o = Normal tmp ->
  snd (stringify this o)
  = match this with
    | ThisUndefined => Throw DestructureUndefined
    | ThisExports => Normal (Some (str "/"))
    end.
Proof.
  intros H. unfold urlObjectToString. rewrite H.
  destruct (url_record _ _ o tmp) as [log u].
  cbn [snd]. rewrite Uri_toString_constant. destruct this; reflexivity.
Qed.

(** X25: [urlObjectToString] never returns [undefined]. *)
Lemma urlObjectToString_defined (this : ModuleThis) (o : bag) :
  snd (stringify this o) <> Normal None.
Proof.
  destruct (base_string URL_toString o) as [tmp|e] eqn:E.
  - rewrite (urlObjectToString_after_join this o tmp E).
    destruct this; discriminate.
  - rewrite (urlObjectToString_join_failure this o e E). discriminate.
Qed.


(** *** The override objects *)


Lemma params_of_keep (a b : UrlProperties.object V) (key : jsstring) (v : V)
  (x : jsstring) :
  encode_value JSON_stringify encodeURIComponent v = Normal x ->
  params_of JSON_stringify encodeURIComponent (a ++ (key, v) :: b)
  = (fst (params_of JSON_stringify encodeURIComponent a)
     ++ fst (params_of JSON_stringify encodeURIComponent b),
     snd (params_of JSON_stringify encodeURIComponent a)
     ++ (key ++ str "=" ++ x)
        :: snd (params_of JSON_stringify encodeURIComponent b)).
Proof.
  intros H. induction a as [|[k w] a IH].
  - cbn [app params_of fst snd]. rewrite H.
    now destruct (params_of _ _ b).
  - cbn [app params_of]. rewrite IH.
    destruct (params_of _ _ a) as [wa pa], (params_of _ _ b) as [wb pb].
    cbn [fst snd].
    destruct (encode_value _ _ w); reflexivity.
Qed.

(** *** The examples of the specification *)

(** C5, where it fails: for [{ serverURL: "https://meet.example.com/",
    room: "team-sync" }] the base string is the join of the two and the
    record built from the joined string assembles to it, but the call of
    [toString] does not read the record, so [urlObjectToString] does not
    return [https://meet.example.com/team-sync] on any host. *)
Theorem urlObjectToString_serverURL_room (this : ModuleThis) :
  let o : bag :=
    bag_serverURL_room (str "https://meet.example.com/") (str "team-sync") in
  base_string URL_toString o
  = URL_toString (str "team-sync") (str "https://meet.example.com/")
  /\ assemble_record
       (snd (record_of o (str "https://meet.example.com/team-sync")))
     = str "https://meet.example.com/team-sync"
  /\ snd (stringify this o)
     <> Normal (Some (str "https://meet.example.com/team-sync")).
Proof.
  cbv zeta. repeat split.
  set (o := bag_serverURL_room _ _).
  destruct (base_string URL_toString o) as [tmp|e] eqn:E.
  - rewrite (urlObjectToString_after_join this o tmp E).
    destruct this; discriminate.
  - rewrite (urlObjectToString_join_failure this o e E). discriminate.
Qed.

(** C9, where it fails: for [{ url: "https://meet.example.com/r" }] no join
    is made, and with the [this] of an ECMAScript module
    [urlObjectToString] throws all the same, from [toString]. *)
Theorem urlObjectToString_throws_without_join :
  let o : bag := bag_url (str "https://meet.example.com/r") in
  base_string URL_toString o = Normal (str "https://meet.example.com/r")
  /\ stringify ThisUndefined o = ([], Throw DestructureUndefined).
Proof. cbv zeta. split; reflexivity. Qed.

(** C10, where it fails: for the bag without properties no join is made,
    and [urlObjectToString] throws with the [this] of an ECMAScript module;
    with the [this] of a CommonJS module it returns [/]. *)
Theorem urlObjectToString_empty_bag :
  base_string URL_toString (empty_bag : bag) = Normal []
  /\ stringify ThisUndefined empty_bag = ([], Throw DestructureUndefined)
  /\ stringify ThisExports empty_bag = ([], Normal (Some (str "/"))).
Proof. repeat split; reflexivity. Qed.

(** *** [toURLString] *)

(** A value that is neither an object nor a string, and [null], give
    [undefined]; a string and a [URL] give their text. *)
Example toURLString_cases (this : ModuleThis) (t : jsstring) :
  toURLString JSON_stringify encodeURIComponent URL_toString this VOther
  = ([], Normal None)
  /\ toURLString JSON_stringify encodeURIComponent URL_toString this
       (VString t) = ([], Normal (Some t))
  /\ toURLString JSON_stringify encodeURIComponent URL_toString this (VURL t)
     = ([], Normal (Some t)).
Proof. repeat split. Qed.

End HostProperties.


(** * Further properties *)

(** ** [_fixRoom] *)

Lemma filter_idem {A : Type} (p : A -> bool) (l : list A) :
  filter p (filter p l) = filter p l.
Proof.
  induction l as [|a l IH]; simpl; [reflexivity|].
  destruct (p a) eqn:E; simpl; [now rewrite E, IH | exact IH].
Qed.

Lemma filter_length_le {A : Type} (p : A -> bool) (l : list A) :
  (length (filter p l) <= length l)%nat.
Proof.
  induction l as [|a l IH]; simpl; [lia|]. destruct (p a); simpl; lia.
Qed.

Lemma filter_fixed {A : Type} (p : A -> bool) (l : list A) :
  filter p l = l <-> forallb p l = true.
Proof.
  split; [|apply filter_all].
  induction l as [|a l IH]; simpl; [reflexivity|].
  destruct (p a) eqn:E.
  - intros H. injection H as H. now rewrite IH.
  - intros H. pose proof (filter_length_le p l) as L.
    rewrite H in L. simpl in L. lia.
Qed.

Lemma forallb_negb_existsb {A : Type} (p : A -> bool) (l : list A) :
  forallb (fun c => negb (p c)) l = negb (existsb p l).
Proof.
  induction l as [|a l IH]; simpl; [reflexivity|].
  rewrite IH. now destruct (p a).
Qed.

Lemma filter_clean (r : jsstring) :
  existsb is_excluded (filter (fun c => negb (is_excluded c)) r) = false.
Proof.
  induction r as [|c r IH]; simpl; [reflexivity|].
  destruct (is_excluded c) eqn:E; simpl; [exact IH | now rewrite E].
Qed.


(** X2: The sanitized room holds none of the excluded characters, and it is the
    room itself exactly when the room holds none. *)
Theorem fixRoom_excludes (r : jsstring) :
  exists x : jsstring,
    _fixRoom (Some r) = Some x
    /\ existsb is_excluded x = false
    /\ (x = r <-> existsb is_excluded r = false).
Proof.
  destruct r as [|c r].
  - exists []. repeat split; reflexivity.
  - exists (filter (fun c => negb (is_excluded c)) (c :: r)).
    split; [reflexivity|]. split; [apply filter_clean|].
    pose proof (filter_fixed (fun c => negb (is_excluded c)) (c :: r)) as F.
    rewrite forallb_negb_existsb in F.
    destruct (existsb is_excluded (c :: r)); cbn [negb] in F; split;
      intros H; try reflexivity; try discriminate.
    + now apply F in H.
    + now apply F.
Qed.

(** ** [getLocationContextRoot] *)

Lemma lastIndexOf_absent (c : N) (s : jsstring) :
  lastIndexOf c s = -1 <-> ~ In c s.
Proof.
  induction s as [|d s IH]; cbn [lastIndexOf].
  - split; [intros _ [] | reflexivity].
  - destruct (lastIndexOf c s =? -1) eqn:E.
    + apply Z.eqb_eq in E. destruct (N.eqb c d) eqn:Ed.
      * apply N.eqb_eq in Ed. subst d. split; [discriminate|].
        intros H. exfalso. apply H. now left.
      * apply N.eqb_neq in Ed. split; [|reflexivity].
        intros _ [H|H]; [congruence | now apply IH in H].
    + apply Z.eqb_neq in E.
      destruct (lastIndexOf_range c s) as [R|R]; [contradiction|].
      split; [lia|]. intros H. exfalso. apply E, IH.
      intros X. apply H. now right.
Qed.

(** The last occurrence splits the string. *)
Lemma lastIndexOf_split (c : N) (s : jsstring) :
  lastIndexOf c s <> -1 ->
  exists a b : jsstring,
    s = a ++ c :: b /\ lastIndexOf c s = Z.of_nat (length a) /\ ~ In c b.
Proof.
  induction s as [|d s IH]; cbn [lastIndexOf]; [contradiction|].
  destruct (lastIndexOf c s =? -1) eqn:E.
  - apply Z.eqb_eq in E. destruct (N.eqb c d) eqn:Ed; [|contradiction].
    apply N.eqb_eq in Ed. subst d. intros _.
    exists [], s. repeat split. now apply lastIndexOf_absent.
  - apply Z.eqb_neq in E. intros _.
    destruct (IH E) as (a & b & -> & Hi & Hb).
    exists (d :: a), b. repeat split; [|assumption].
    rewrite Hi. cbn [length]. lia.
Qed.

Lemma lastIndexOf_app_last (c : N) (a b : jsstring) :
  ~ In c b -> lastIndexOf c (a ++ c :: b) = Z.of_nat (length a).
Proof.
  intros Hb. induction a as [|d a IH]; cbn [app lastIndexOf length].
  - apply lastIndexOf_absent in Hb. rewrite Hb. cbn.
    now rewrite N.eqb_refl.
  - rewrite IH.
    destruct (Z.of_nat (length a) =? -1) eqn:E; [|lia].
    apply Z.eqb_eq in E. lia.
Qed.

Lemma endsWith_app (a p : jsstring) : endsWith p (a ++ p) = true.
Proof. unfold endsWith. rewrite rev_app_distr. apply startsWith_app. Qed.

(** The context root by the last [/] of the path. *)
Lemma contextRoot_split (a b : jsstring) :
  ~ In (code "/") b ->
  getLocationContextRoot (a ++ code "/" :: b) = a ++ [code "/"].
Proof.
  intros Hb. unfold getLocationContextRoot.
  rewrite (lastIndexOf_app_last _ a b Hb).
  destruct (Z.of_nat (length a) =? -1) eqn:E; [apply Z.eqb_eq in E; lia|].
  replace (Z.of_nat (length a) + 1) with (Z.of_nat (length (a ++ [code "/"])))
    by (rewrite length_app; cbn [length]; lia).
  replace (a ++ code "/" :: b) with ((a ++ [code "/"]) ++ b)
    by now rewrite <- app_assoc.
  apply substring2_app.
Qed.

(** X3: The context root ends with [/], and it is its own context root. *)
Theorem getLocationContextRoot_idempotent (pathname : jsstring) :
  endsWith (str "/") (getLocationContextRoot pathname) = true
  /\ getLocationContextRoot (getLocationContextRoot pathname)
     = getLocationContextRoot pathname.
Proof.
  destruct (Z.eq_dec (lastIndexOf (code "/") pathname) (-1)) as [E|E].
  - unfold getLocationContextRoot at 1 3 4. rewrite E.
    split; reflexivity.
  - destruct (lastIndexOf_split _ _ E) as (a & b & -> & _ & Hb).
    rewrite (contextRoot_split a b Hb). split.
    + apply (endsWith_app a (str "/")).
    + apply (contextRoot_split a []). intros [].
Qed.

(** X4: A path with a [/] is its context root followed by a segment without
    [/]; a path without one has the context root [/]. *)
Theorem getLocationContextRoot_prefix (pathname : jsstring) :
  (In (code "/") pathname ->
   exists segment : jsstring,
     pathname = getLocationContextRoot pathname ++ segment
     /\ ~ In (code "/") segment)
  /\ (~ In (code "/") pathname -> getLocationContextRoot pathname = str "/").
Proof.
  split.
  - intros H.
    assert (E : lastIndexOf (code "/") pathname <> -1)
      by (intros X; now apply lastIndexOf_absent in X).
    destruct (lastIndexOf_split _ _ E) as (a & b & -> & _ & Hb).
    exists b. rewrite (contextRoot_split a b Hb), <- app_assoc.
    now split.
  - intros H. apply lastIndexOf_absent in H.
    unfold getLocationContextRoot. now rewrite H.
Qed.

Lemma getLocationContextRoot_prefix_witness :
  (exists segment : jsstring,
      str "/tenant/room"
      = getLocationContextRoot (str "/tenant/room") ++ segment
      /\ ~ In (code "/") segment)
  /\ getLocationContextRoot (str "room") = str "/".
Proof.
  split.
  - apply (proj1 (getLocationContextRoot_prefix (str "/tenant/room"))).
    left. reflexivity.
  - apply (proj2 (getLocationContextRoot_prefix (str "room"))).
    vm_compute. intuition discriminate.
Defined.

(** ** [parseStandardURIString], field by field *)

(** The fields of the record in terms of the strings that are left after the
    protocol ([s1]), after the authority ([s2]) and after the path ([s3]). *)
Lemma parse_stages (s : jsstring) :
  let s0 := filter (fun c => negb (is_space c)) s in
  let s1 :=
    match exec_URI_PROTOCOL s0 with
    | Some (_, i) => substring s0 i
    | None => s0
    end in
  let s2 :=
    match exec_URI_AUTHORITY s1 with
    | Some (_, i) => substring s1 i
    | None => s1
    end in
  let p := run is_path_char s2 in
  let s3 := substring s2 (len p) in
  let h :=
    if indexOfFrom (str "#") s3 1 =? -1 then len s3
    else indexOfFrom (str "#") s3 1 in
  let s4 := if startsWith (str "?") s3 then substring s3 h else s3 in
  let u := parseStandardURIString s in
  Uri.protocol u
  = match exec_URI_PROTOCOL s0 with
    | Some (m, _) => Some (toLowerCase m)
    | None => None
    end
  /\ (exec_URI_AUTHORITY s1 = None ->
      Uri.host u = None /\ Uri.hostname u = None /\ Uri.port u = None)
  /\ (forall m i, exec_URI_AUTHORITY s1 = Some (m, i) ->
      let a0 := substring m 2 in
      let a :=
        if negb (indexOf (str "@") a0 =? -1)
        then substring a0 (indexOf (str "@") a0 + 1) else a0 in
      Uri.host u = Some a
      /\ Uri.port u
         = (if negb (lastIndexOf (code ":") a =? -1)
            then Some (substring a (lastIndexOf (code ":") a + 1))
            else None)
      /\ Uri.hostname u
         = Some (if negb (lastIndexOf (code ":") a =? -1)
                 then substring2 a 0 (lastIndexOf (code ":") a)
                 else a))
  /\ Uri.pathname u
     = (if nonempty p
        then (if startsWith (str "/") p then p else str "/" ++ p)
        else str "/")
  /\ Uri.search u = (if startsWith (str "?") s3 then substring2 s3 0 h else [])
  /\ Uri.hash u = (if startsWith (str "#") s4 then s4 else []).
Proof.
  cbv zeta. unfold parseStandardURIString.
  destruct (exec_URI_PROTOCOL _) as [[m1 i1]|];
    (destruct (exec_URI_AUTHORITY _) as [[m2 i2]|];
     unfold exec_URI_PATH; cbv zeta;
     repeat match goal with
            | |- context [let '(_, _) := (if ?c then _ else _) in _] =>
                destruct c eqn:?
            end;
     cbn [Uri.pathname Uri.protocol Uri.host Uri.hostname Uri.port Uri.search
          Uri.hash truthy or_empty];
     (split; [reflexivity|]);
     (split; [intros X; try discriminate X; repeat split; reflexivity|]);
     (split;
      [intros mm ii Hm; try discriminate Hm; injection Hm as <- <-;
       cbv zeta;
       repeat match goal with
              | H : ?c = _ |- context [if ?c then _ else _] => rewrite H
              end;
       repeat split; reflexivity|]);
     repeat split; reflexivity).
Qed.

(** X5: White space does not count: stripped beforehand or left anywhere in the
    string, it gives the same record. *)
Theorem parseStandardURIString_whitespace (s : jsstring) :
  parseStandardURIString (filter (fun c => negb (is_space c)) s)
  = parseStandardURIString s
  /\ (forall (a b : jsstring) (w : N),
         is_space w = true ->
         parseStandardURIString (a ++ w :: b) = parseStandardURIString (a ++ b)).
Proof.
  split.
  - unfold parseStandardURIString. now rewrite filter_idem.
  - intros a b w Hw. unfold parseStandardURIString.
    rewrite !filter_app. cbn [filter]. now rewrite Hw.
Qed.

Lemma parseStandardURIString_whitespace_witness :
  parseStandardURIString (str "https://meet.example.com/" ++ 32%N :: str "r")
  = parseStandardURIString (str "https://meet.example.com/" ++ str "r").
Proof.
  apply (proj2 (parseStandardURIString_whitespace [])). reflexivity.
Defined.

Lemma run_forallb (p : N -> bool) (s : jsstring) : forallb p (run p s) = true.
Proof.
  induction s as [|c s IH]; simpl; [reflexivity|].
  destruct (p c) eqn:E; simpl; [now rewrite E|reflexivity].
Qed.

Lemma forallb_skipn {A : Type} (p : A -> bool) (n : nat) (l : list A) :
  forallb p l = true -> forallb p (skipn n l) = true.
Proof.
  revert l. induction n as [|n IH]; intros [|a l] H; simpl; try assumption.
  simpl in H. apply andb_true_iff in H. now apply IH.
Qed.

Lemma substring_app_cons (a b : jsstring) (c : N) :
  substring (a ++ c :: b) (len a + 1) = b.
Proof.
  replace (a ++ c :: b) with ((a ++ [c]) ++ b) by now rewrite <- app_assoc.
  replace (len a + 1) with (len (a ++ [c]))
    by (unfold len; rewrite length_app; cbn [length]; lia).
  apply substring_app.
Qed.

(** X6: The authority is all there or all absent; [host] is [hostname], followed
    by [:] and [port] when there is a port; the port holds no [:], and a host
    without port holds none either; the host holds no [/], [?] or [#]. *)
Theorem parseStandardURIString_authority (s : jsstring) :
  let u := parseStandardURIString s in
  match Uri.host u, Uri.hostname u, Uri.port u with
  | None, None, None => True
  | Some h, Some hn, None => h = hn /\ ~ In (code ":") h
  | Some h, Some hn, Some pt => h = hn ++ code ":" :: pt /\ ~ In (code ":") pt
  | _, _, _ => False
  end
  /\ forallb is_authority_char (or_empty (Uri.host u)) = true.
Proof.
  intros u. subst u.
  destruct (parse_stages s) as (_ & Hnone & Hsome & _). cbv zeta in *.
  set (s1 := match exec_URI_PROTOCOL _ with Some _ => _ | None => _ end) in *.
  destruct (exec_URI_AUTHORITY s1) as [[m i]|] eqn:E.
  - destruct (Hsome m i eq_refl) as (-> & -> & ->). clear Hnone Hsome.
    set (a0 := substring m 2).
    set (a := if negb (indexOf (str "@") a0 =? -1)
              then substring a0 (indexOf (str "@") a0 + 1) else a0).
    assert (Ha : forallb is_authority_char a = true).
    { assert (H0 : forallb is_authority_char a0 = true).
      { subst a0. unfold exec_URI_AUTHORITY in E.
        destruct (startsWith (str "//") s1); [|discriminate].
        destruct (run is_authority_char (skipn 2 s1)) as [|c r] eqn:R;
          [discriminate|].
        injection E as <- _.
        change (substring _ 2)
          with (substring (str "//" ++ c :: r) (len (str "//"))).
        rewrite substring_app, <- R. apply run_forallb. }
      subst a. destruct (negb _); [|exact H0].
      unfold substring. now apply forallb_skipn. }
    split; [|exact Ha].
    destruct (Z.eq_dec (lastIndexOf (code ":") a) (-1)) as [L|L].
    + rewrite L. cbn. split; [reflexivity|now apply lastIndexOf_absent].
    + replace (lastIndexOf (code ":") a =? -1) with false
        by (symmetry; now apply Z.eqb_neq).
      cbn [negb].
      destruct (lastIndexOf_split _ _ L) as (x & y & Hxy & Hi & Hy).
      rewrite Hi, Hxy. fold (len x).
      now rewrite substring2_app, substring_app_cons.
  - destruct (Hnone eq_refl) as (-> & -> & ->). now split.
Qed.

Lemma indexOf_unit_none (c : N) (s : jsstring) :
  indexOf [c] s = -1 -> ~ In c s.
Proof.
  induction s as [|d s IH]; [intros _ []|].
  cbn [indexOf startsWith]. destruct (N.eqb c d) eqn:E; [discriminate|].
  cbn [andb]. apply N.eqb_neq in E.
  destruct (indexOf [c] s =? -1) eqn:E1;
    [|destruct (indexOf_range [c] s); lia].
  apply Z.eqb_eq in E1. intros _ [H|H]; [congruence | now apply IH].
Qed.

Lemma indexOf_unit_before (c : N) (s : jsstring) :
  indexOf [c] s <> -1 -> ~ In c (firstn (Z.to_nat (indexOf [c] s)) s).
Proof.
  induction s as [|d s IH]; [intros _ []|].
  cbn [indexOf startsWith]. destruct (N.eqb c d) eqn:E.
  - intros _ [].
  - cbn [andb]. apply N.eqb_neq in E.
    destruct (indexOf [c] s =? -1) eqn:E1; [contradiction|].
    apply Z.eqb_neq in E1. intros _.
    destruct (indexOf_range [c] s) as [R|R]; [contradiction|].
    replace (Z.to_nat (1 + indexOf [c] s))
      with (S (Z.to_nat (indexOf [c] s))) by lia.
    rewrite firstn_cons. intros [H|H]; [congruence | now apply IH].
Qed.

(** The query that is cut off a rest holds no [#]. *)
Lemma query_no_hash (s : jsstring) :
  startsWith (str "?") s = true ->
  ~ In (code "#")
      (substring2 s 0
         (if indexOfFrom (str "#") s 1 =? -1 then len s
          else indexOfFrom (str "#") s 1)).
Proof.
  intros H. destruct (startsWith_inv _ _ H) as [r ->].
  change (str "?" ++ r) with (code "?" :: r).
  assert (Hc : clamp (code "?" :: r) 1 = 1%nat)
    by (unfold clamp, len; cbn [length]; lia).
  unfold indexOfFrom. rewrite Hc. cbn [skipn].
  change (str "#") with [code "#"].
  destruct (Z.eq_dec (indexOf [code "#"] r) (-1)) as [E|E].
  - rewrite E. change (-1 =? -1) with true. cbv iota.
    change (-1 =? -1) with true. cbv iota.
    replace (len (code "?" :: r)) with (Z.of_nat (length (code "?" :: r)))
      by reflexivity.
    rewrite substring2_prefix, firstn_all by lia.
    intros [X|X]; [discriminate | now apply indexOf_unit_none in X].
  - replace (indexOf [code "#"] r =? -1) with false
      by (symmetry; now apply Z.eqb_neq).
    destruct (indexOf_range [code "#"] r) as [R|R]; [contradiction|].
    replace (Z.of_nat 1 + indexOf [code "#"] r =? -1) with false
      by (symmetry; apply Z.eqb_neq; lia).
    assert (Hl : indexOf [code "#"] r <= len r).
    { clear. unfold len. induction r as [|c r IH]; cbn [indexOf].
      - destruct (startsWith _ _); simpl; lia.
      - destruct (startsWith _ _); [lia|]. cbn [length].
        destruct (indexOf [code "#"] r =? -1); lia. }
    replace (Z.of_nat 1 + indexOf [code "#"] r)
      with (Z.of_nat (S (Z.to_nat (indexOf [code "#"] r)))) by lia.
    rewrite substring2_prefix by (unfold len in Hl; cbn [length]; lia).
    rewrite firstn_cons.
    intros [X|X]; [discriminate | now apply indexOf_unit_before in X].
Qed.

(** X7: The path holds no [?] and no [#]; the query is empty or starts with [?]
    and holds no [#]; the fragment is empty or starts with [#]. *)
Theorem parseStandardURIString_delimiters (s : jsstring) :
  let u := parseStandardURIString s in
  forallb is_path_char (Uri.pathname u) = true
  /\ (Uri.search u = [] \/ startsWith (str "?") (Uri.search u) = true)
  /\ ~ In (code "#") (Uri.search u)
  /\ (Uri.hash u = [] \/ startsWith (str "#") (Uri.hash u) = true).
Proof.
  intros u. subst u.
  destruct (parse_stages s) as (_ & _ & _ & Hp & Hq & Hh). cbv zeta in *.
  rewrite Hp, Hh. split; [|split; [apply search_parse|split]].
  - destruct (nonempty _); [|reflexivity].
    destruct (startsWith _ _); [apply run_forallb|].
    cbn [str app map list_ascii_of_string forallb].
    now rewrite run_forallb.
  - rewrite Hq.
    match goal with
    | |- context [startsWith (str "?") ?x] =>
        destruct (startsWith (str "?") x) eqn:E
    end; [now apply query_no_hash | intros []].
  - match goal with
    | |- context [if startsWith (str "#") ?x then _ else _] =>
        destruct (startsWith (str "#") x) eqn:E
    end; [now right | now left].
Qed.

(** The character constants of the classes as numbers. *)
Ltac codes :=
  change (code "a") with 97%N in *; change (code "z") with 122%N in *;
  change (code "A") with 65%N in *; change (code "Z") with 90%N in *;
  change (code "0") with 48%N in *; change (code "9") with 57%N in *;
  change (code ".") with 46%N in *; change (code "+") with 43%N in *;
  change (code "-") with 45%N in *.

Lemma lower_idem (c : N) : lower (lower c) = lower c.
Proof.
  unfold lower, in_range. codes.
  destruct (N.leb 65 c) eqn:A, (N.leb c 90) eqn:B; cbn [andb];
    rewrite ?A, ?B; cbn [andb]; try reflexivity.
  apply N.leb_le in A, B.
  replace (N.leb (c + 32) 90) with false
    by (symmetry; apply N.leb_gt; lia).
  now rewrite andb_false_r.
Qed.

Lemma lower_scheme_char (c : N) :
  (is_alpha c = true -> is_alpha (lower c) = true)
  /\ (is_scheme_char c = true -> is_scheme_char (lower c) = true).
Proof.
  unfold is_scheme_char, is_alpha, is_digit, lower, in_range. codes.
  destruct (N.leb 65 c) eqn:A, (N.leb c 90) eqn:B; cbn [andb];
    rewrite ?A, ?B; cbn [andb]; try (split; intros H; exact H).
  apply N.leb_le in A, B.
  replace (N.leb 97 (c + 32)) with true by (symmetry; apply N.leb_le; lia).
  replace (N.leb (c + 32) 122) with true by (symmetry; apply N.leb_le; lia).
  split; reflexivity.
Qed.

Lemma is_scheme_lower (t : jsstring) :
  is_scheme t = true ->
  is_scheme (toLowerCase t) = true
  /\ toLowerCase (toLowerCase t) = toLowerCase t.
Proof.
  intros H. split.
  - destruct (is_scheme_inv _ H) as (c & b & -> & Hc & Hb).
    unfold toLowerCase. cbn [map]. rewrite map_app. cbn [map].
    change (lower (code ":")) with (code ":").
    apply is_scheme_intro; [now apply lower_scheme_char|].
    rewrite forallb_forall in *. intros x Hx.
    apply in_map_iff in Hx. destruct Hx as (y & <- & Hy).
    apply lower_scheme_char. now apply Hb.
  - unfold toLowerCase. rewrite map_map. apply map_ext. apply lower_idem.
Qed.

(** X8: The protocol, when there is one, is a scheme prefix in lower case, which
    ends with [:]; there is none exactly when the string, without its white
    space, has no leading scheme prefix. *)
Theorem parseStandardURIString_protocol (s : jsstring) :
  match Uri.protocol (parseStandardURIString s) with
  | Some p =>
      is_scheme p = true /\ toLowerCase p = p
      /\ endsWith (str ":") p = true
      /\ leading_scheme (filter (fun c => negb (is_space c)) s) = true
  | None => leading_scheme (filter (fun c => negb (is_space c)) s) = false
  end.
Proof.
  destruct (parse_stages s) as (-> & _). unfold exec_URI_PROTOCOL.
  set (s0 := filter _ s).
  destruct (scheme_at s0) as [n|] eqn:E.
  - destruct (scheme_at_inv _ _ E) as [_ Ht].
    destruct (is_scheme_lower _ Ht) as [H1 H2].
    repeat split; try assumption.
    + destruct (is_scheme_inv _ H1) as (c & b & -> & _).
      apply (endsWith_app (c :: b) (str ":")).
    + destruct (leading_scheme s0) eqn:L; [reflexivity|].
      apply leading_scheme_false in L. congruence.
  - now apply leading_scheme_false.
Qed.

(** ** [parseURIString], for every string *)

Lemma set_pathname_same (u : Uri.t) : set_pathname u (Uri.pathname u) = u.
Proof. now destruct u. Qed.

Lemma contextRoot_split_eq (p a b : jsstring) :
  p = a ++ code "/" :: b -> ~ In (code "/") b ->
  getLocationContextRoot p = a ++ [code "/"].
Proof. intros -> Hb. now apply contextRoot_split. Qed.

(** The result of [parseURIString] by the last [/] of the parsed path: with
    the path [a ++ "/" ++ b], where [b] holds no [/], the context root is
    [a ++ "/"], the room is the sanitized [b], or nothing when [b] is empty,
    and the path is the context root followed by the sanitized [b]. *)
Lemma parseURIString_anatomy (s : jsstring) :
  let obj := parseStandardURIString (_fixURIStringScheme s) in
  exists a b : jsstring,
    Uri.pathname obj = a ++ code "/" :: b
    /\ ~ In (code "/") b
    /\ parseURIString (Some s)
       = Some {| uri :=
                   set_pathname obj
                     (a ++ code "/"
                        :: filter (fun c => negb (is_excluded c)) b);
                 contextRoot := a ++ [code "/"];
                 room :=
                   if nonempty b
                   then Some (filter (fun c => negb (is_excluded c)) b)
                   else None |}.
Proof.
  intros obj.
  pose proof (parseURIString_cases s) as C. cbv zeta in C. fold obj in C.
  destruct (pathname_slash (_fixURIStringScheme s)) as [rest Hp].
  fold obj in Hp.
  assert (E : lastIndexOf (code "/") (Uri.pathname obj) <> -1)
    by (rewrite Hp; apply lastIndexOf_head).
  destruct (lastIndexOf_split _ _ E) as (a & b & Hab & Hi & Hb).
  exists a, b. split; [assumption|]. split; [assumption|].
  rewrite C. clear C. unfold final_segment.
  rewrite (contextRoot_split_eq _ _ _ Hab Hb).
  rewrite Hi, Hab.
  rewrite substring_app_cons.
  replace (a ++ code "/" :: b) with ((a ++ [code "/"]) ++ b)
    by now rewrite <- app_assoc.
  replace (Z.of_nat (length a) + 1) with (len (a ++ [code "/"]))
    by (unfold len; rewrite length_app; cbn [length]; lia).
  rewrite substring2_app.
  destruct b as [|c b]; cbn [nonempty].
  - cbn [filter]. now rewrite <- Hab, set_pathname_same.
  - change (_fixRoom (Some (c :: b)))
      with (Some (filter (fun c => negb (is_excluded c)) (c :: b))).
    destruct (strict_eqb _ _) eqn:Q.
    + apply strict_eqb_eq in Q.
      assert (Q' : filter (fun c => negb (is_excluded c)) (c :: b) = c :: b)
        by congruence.
      now rewrite Q', <- Hab, set_pathname_same.
    + cbn [or_empty]. now rewrite <- app_assoc.
Qed.

(** X10: For every string, the path of the result is its context root followed by
    its room, or by nothing when there is no room. *)
Theorem parseURIString_pathname_split (s : jsstring) :
  match parseURIString (Some s) with
  | Some r => Uri.pathname (uri r) = contextRoot r ++ or_empty (room r)
  | None => False
  end.
Proof.
  destruct (parseURIString_anatomy s) as (a & b & _ & _ & ->).
  cbn [uri contextRoot room set_pathname Uri.pathname].
  rewrite <- app_assoc. cbn [app].
  destruct b; reflexivity.
Qed.

(** X11: The room of the result holds none of the excluded characters, so no [/]
    in particular, and it is absent only when the parsed path ends with
    [/]. *)
Theorem parseURIString_room_clean (s : jsstring) :
  match parseURIString (Some s) with
  | Some r =>
      existsb is_excluded (or_empty (room r)) = false
      /\ ~ In (code "/") (or_empty (room r))
      /\ (room r = None ->
          endsWith (str "/")
            (Uri.pathname (parseStandardURIString (_fixURIStringScheme s)))
          = true)
  | None => False
  end.
Proof.
  destruct (parseURIString_anatomy s) as (a & b & Hab & _ & ->).
  cbn [room].
  assert (H : existsb is_excluded
                (or_empty (if nonempty b
                           then Some (filter (fun c => negb (is_excluded c)) b)
                           else None)) = false).
  { destruct (nonempty b); [apply filter_clean | reflexivity]. }
  split; [exact H|]. split.
  - intros X. apply Bool.not_true_iff_false in H. apply H.
    apply existsb_exists. exists (code "/"). now split.
  - destruct b; [|discriminate]. intros _. rewrite Hab.
    apply (endsWith_app a (str "/")).
Qed.

(** X12: The context root of the result is the context root of the path of the
    result, also when sanitizing has rewritten the path. *)
Theorem parseURIString_contextRoot (s : jsstring) :
  match parseURIString (Some s) with
  | Some r =>
      contextRoot r = getLocationContextRoot (Uri.pathname (uri r))
      /\ startsWith (str "/") (contextRoot r) = true
      /\ endsWith (str "/") (contextRoot r) = true
  | None => False
  end.
Proof.
  pose proof (pathname_slash (_fixURIStringScheme s)) as [rest Hp].
  destruct (parseURIString_anatomy s) as (a & b & Hab & Hb & ->).
  cbn [uri contextRoot set_pathname Uri.pathname]. split; [|split].
  - symmetry. apply contextRoot_split.
    intros X. apply filter_In in X. now apply Hb.
  - rewrite Hab in Hp. destruct a as [|c a].
    + reflexivity.
    + injection Hp as -> _. cbn [app startsWith str map list_ascii_of_string].
      now rewrite N.eqb_refl.
  - apply (endsWith_app a (str "/")).
Qed.

Lemma existsb_false_not_in {A : Type} (p : A -> bool) (l : list A) (x : A) :
  existsb p l = false -> p x = true -> ~ In x l.
Proof.
  intros H Hx X. apply Bool.not_true_iff_false in H. apply H.
  apply existsb_exists. now exists x.
Qed.

Lemma scheme_tail_colon (s : jsstring) (n : nat) :
  scheme_tail s = Some n -> In (code ":") s.
Proof.
  intros H. destruct (scheme_tail_inv _ _ H) as (b & r & -> & _).
  apply in_or_app. right. now left.
Qed.

Lemma run_all (p : N -> bool) (s : jsstring) :
  forallb p s = true -> run p s = s.
Proof.
  induction s as [|c s IH]; simpl; [reflexivity|]. intros H.
  apply andb_true_iff in H. destruct H as [Hc Hs]. now rewrite Hc, IH.
Qed.

(** X13: A room name alone: a non-empty string without white space and without
    excluded characters is parsed to the path [/] followed by it, the context
    root [/] and itself as the room, with no protocol, authority, query or
    fragment. *)
Theorem parseURIString_room_name (s : jsstring) :
  s <> [] ->
  existsb is_excluded s = false ->
  existsb is_space s = false ->
  parseURIString (Some s)
  = Some {| uri := Uri.mk [] None None (str "/" ++ s) None None [];
            contextRoot := str "/";
            room := Some s |}.
Proof.
  intros Hne Hx Hw.
  assert (Hin : forall c, is_excluded c = true -> ~ In c s)
    by (intros c Hc; now apply (existsb_false_not_in is_excluded)).
  assert (Hcolon := Hin (code ":") eq_refl).
  assert (Hslash := Hin (code "/") eq_refl).
  assert (Hq := Hin (code "?") eq_refl).
  assert (Hh := Hin (code "#") eq_refl).
  destruct s as [|c s]; [contradiction|].
  assert (Hsch : scheme_at (c :: s) = None).
  { cbn [scheme_at]. destruct (is_alpha c); [|reflexivity].
    destruct (scheme_tail s) as [n|] eqn:E; [|reflexivity].
    exfalso. apply Hcolon. right. now apply scheme_tail_colon in E. }
  assert (Hfix : _fixURIStringScheme (c :: s) = c :: s).
  { unfold _fixURIStringScheme, exec_URI_PROTOCOL_plus.
    now rewrite schemes_at_none. }
  assert (Hc1 : N.eqb (code "/") c = false)
    by (apply N.eqb_neq; intros E; apply Hslash; now left).
  assert (Hpath : forallb is_path_char (c :: s) = true).
  { apply forallb_forall. intros x Hx'. unfold is_path_char.
    destruct (N.eqb x (code "?")) eqn:E1;
      [apply N.eqb_eq in E1; subst x; contradiction|].
    destruct (N.eqb x (code "#")) eqn:E2;
      [apply N.eqb_eq in E2; subst x; contradiction|]. reflexivity. }
  assert (Hparse : parseStandardURIString (c :: s)
                   = Uri.mk [] None None (str "/" ++ c :: s) None None []).
  { unfold parseStandardURIString.
    rewrite filter_all
      by (rewrite forallb_negb_existsb; now rewrite Hw).
    unfold exec_URI_PROTOCOL. rewrite Hsch. cbv iota beta.
    unfold exec_URI_AUTHORITY.
    cbn [startsWith str map list_ascii_of_string]. rewrite Hc1.
    cbn [andb]. cbv iota beta.
    unfold exec_URI_PATH. rewrite (run_all _ _ Hpath). cbv iota beta zeta.
    pose proof (substring_app (c :: s) []) as Hsub.
    rewrite app_nil_r in Hsub. rewrite Hsub.
    cbn [truthy nonempty or_empty startsWith str map list_ascii_of_string].
    rewrite Hc1. reflexivity. }
  pose proof (parseURIString_cases (c :: s)) as C. cbv zeta in C.
  rewrite Hfix, Hparse in C. cbn [Uri.pathname] in C.
  assert (Hseg : final_segment (str "/" ++ c :: s) = c :: s).
  { unfold final_segment.
    change (str "/" ++ c :: s) with ([] ++ code "/" :: c :: s).
    rewrite (lastIndexOf_app_last _ [] (c :: s) Hslash).
    apply (substring_app_cons [] (c :: s)). }
  assert (Hroot : getLocationContextRoot (str "/" ++ c :: s) = str "/")
    by (apply (contextRoot_split [] (c :: s) Hslash)).
  assert (Hsame : _fixRoom (@Some jsstring (c :: s))
                  = @Some jsstring (c :: s)).
  { unfold _fixRoom. cbn [nonempty]. apply (f_equal (@Some jsstring)).
    apply filter_all.
    rewrite forallb_negb_existsb. now rewrite Hx. }
  rewrite Hseg, Hroot, Hsame in C.
  replace (strict_eqb (@Some jsstring (c :: s)) (@Some jsstring (c :: s)))
    with true in C by (symmetry; now apply strict_eqb_eq).
  exact C.
Qed.

Lemma parseURIString_room_name_witness :
  parseURIString (Some (str "team-sync"))
  = Some {| uri := Uri.mk [] None None (str "/team-sync") None None [];
            contextRoot := str "/";
            room := Some (str "team-sync") |}.
Proof.
  apply (parseURIString_room_name (str "team-sync"));
    [discriminate | reflexivity | reflexivity].
Defined.

(** ** [_fixURIStringScheme], for every string *)

(** The result is a suffix of the argument that has no leading scheme
    prefix, with [http:] or [https:] in front of it when it starts with
    [//] and a scheme prefix was matched. *)
Lemma fixScheme_shape (s : jsstring) :
  exists n : nat,
    (n <= length s)%nat
    /\ scheme_at (skipn n s) = None
    /\ (_fixURIStringScheme s = skipn n s
        \/ (startsWith (str "//") (skipn n s) = true
            /\ (_fixURIStringScheme s = str "http:" ++ skipn n s
                \/ _fixURIStringScheme s = str "https:" ++ skipn n s))).
Proof.
  unfold _fixURIStringScheme, exec_URI_PROTOCOL_plus.
  destruct (schemes_at (length s) s) as [[g n]|] eqn:E.
  - destruct (schemes_at_rest _ _ _ _ (Nat.le_refl _) E) as [Hn Hrest].
    exists n. split; [assumption|]. split; [assumption|].
    rewrite substring_of_nat by assumption.
    destruct (startsWith (str "//") (skipn n s)); [|now left].
    right. split; [reflexivity|].
    destruct (jsstring_eqb (toLowerCase g) (str "http:")) eqn:E1.
    + apply jsstring_eqb_eq in E1. rewrite E1. now left.
    + destruct (jsstring_eqb (toLowerCase g) (str "https:")) eqn:E2.
      * apply jsstring_eqb_eq in E2. rewrite E2. now right.
      * now right.
  - exists 0%nat. split; [lia|]. cbn [skipn]. split; [|now left].
    destruct (scheme_at s) as [k|] eqn:Ek; [|reflexivity].
    destruct (scheme_at_inv _ _ Ek) as [Hk _].
    destruct s as [|c s]; [simpl in Hk; lia|].
    cbn [length schemes_at] in E. rewrite Ek in E.
    destruct (schemes_at _ _) as [[? ?]|]; discriminate.
Qed.


(** X15: For a string without white space, the protocol of the parsed result is
    absent, [http:] or [https:], whatever scheme the string names. *)
Theorem parseURIString_protocol (s : jsstring) :
  existsb is_space s = false ->
  match parseURIString (Some s) with
  | Some r =>
      Uri.protocol (uri r) = None
      \/ Uri.protocol (uri r) = Some (str "http:")
      \/ Uri.protocol (uri r) = Some (str "https:")
  | None => False
  end.
Proof.
  intros Hw.
  destruct (parseURIString_anatomy s) as (a & b & _ & _ & ->).
  cbn [uri set_pathname Uri.protocol].
  destruct (parse_stages (_fixURIStringScheme s)) as (-> & _).
  assert (Hs : forallb (fun c => negb (is_space c)) s = true)
    by (rewrite forallb_negb_existsb; now rewrite Hw).
  destruct (fixScheme_shape s) as (n & _ & Hrest & [-> | (_ & [-> | ->])]).
  - rewrite filter_all by now apply forallb_skipn.
    unfold exec_URI_PROTOCOL. rewrite Hrest. now left.
  - rewrite filter_all
      by (rewrite forallb_app; rewrite forallb_skipn by assumption;
          reflexivity).
    unfold exec_URI_PROTOCOL.
    rewrite (scheme_at_app (str "http:") _ eq_refl).
    rewrite firstn_app, firstn_all, Nat.sub_diag. right. now left.
  - rewrite filter_all
      by (rewrite forallb_app; rewrite forallb_skipn by assumption;
          reflexivity).
    unfold exec_URI_PROTOCOL.
    rewrite (scheme_at_app (str "https:") _ eq_refl).
    rewrite firstn_app, firstn_all, Nat.sub_diag. right. now right.
Qed.

Lemma parseURIString_protocol_witness :
  match parseURIString (Some (str "org.jitsi.meet://meet.example.com/r")) with
  | Some r =>
      Uri.protocol (uri r) = None
      \/ Uri.protocol (uri r) = Some (str "http:")
      \/ Uri.protocol (uri r) = Some (str "https:")
  | None => False
  end.
Proof.
  apply (parseURIString_protocol (str "org.jitsi.meet://meet.example.com/r")).
  reflexivity.
Defined.

Lemma assemble_parse_canonical_witness :
  assemble_record
    (parseStandardURIString (str "https://meet.example.com/foo/bar?x=1#hash"))
  = str "https://meet.example.com/foo/bar?x=1#hash".
Proof.
  apply (assemble_parse_canonical (str "https:") (str "meet.example.com")
           (str "/foo/bar") (str "?x=1") (str "#hash"));
    try reflexivity.
  - exact (existsb_false_not_in (N.eqb (code "@")) (str "meet.example.com")
             (code "@") eq_refl (N.eqb_refl _)).
  - exact (existsb_false_not_in (N.eqb (code "#")) (str "?x=1") (code "#")
             eq_refl (N.eqb_refl _)).
Defined.

(** ** [_objectToURLParamsArray] and the record of [urlObjectToString] *)

Lemma endsWith_inv (p s : jsstring) :
  endsWith p s = true -> exists q, s = q ++ p.
Proof.
  unfold endsWith. intros H. destruct (startsWith_inv _ _ H) as [r Hr].
  exists (rev r). apply (f_equal (@rev N)) in Hr.
  now rewrite rev_involutive, rev_app_distr, rev_involutive in Hr.
Qed.

Lemma startsWith_app_l (p s t : jsstring) :
  startsWith p s = true -> startsWith p (s ++ t) = true.
Proof.
  intros H. destruct (startsWith_inv _ _ H) as [r ->].
  rewrite <- app_assoc. apply startsWith_app.
Qed.

(** A string that holds [p] has an index for it. *)
Lemma indexOf_found (p a b : jsstring) : indexOf p (a ++ p ++ b) <> -1.
Proof.
  induction a as [|c a IH].
  - cbn [app]. destruct (p ++ b) eqn:E; cbn [indexOf]; rewrite <- E;
      now rewrite startsWith_app.
  - cbn [app indexOf]. destruct (startsWith p (c :: a ++ p ++ b)); [lia|].
    destruct (indexOf p (a ++ p ++ b) =? -1) eqn:E.
    + apply Z.eqb_eq in E. contradiction.
    + destruct (indexOf_range p (a ++ p ++ b)); lia.
Qed.

Section RecordProperties.

Variable V : Type.
Variable JSON_stringify : V -> completion (option jsstring).
Variable encodeURIComponent : jsstring -> completion jsstring.

Local Abbreviation bag := (UrlProperties.t V).
Local Abbreviation encode := (encode_value JSON_stringify encodeURIComponent).
Local Abbreviation params := (params_of JSON_stringify encodeURIComponent).
Local Abbreviation record_of :=
  (url_record JSON_stringify encodeURIComponent).


(** X17: With every value encoded, the array is the list of [key=value] in the
    order of the keys. *)
Theorem objectToURLParamsArray_all (obj : UrlProperties.object V)
  (enc : V -> jsstring) :
  (forall kv, In kv obj -> encode (snd kv) = Normal (enc (snd kv))) ->
  _objectToURLParamsArray JSON_stringify encodeURIComponent (Some obj)
  = ([], map (fun kv => fst kv ++ str "=" ++ enc (snd kv)) obj).
Proof.
  unfold _objectToURLParamsArray.
  induction obj as [|[k v] obj IH]; intros H; cbn [params_of map];
    [reflexivity|].
  rewrite IH by (intros kv Hkv; apply H; now right).
  pose proof (H (k, v) (or_introl eq_refl)) as Hk. cbn [snd] in Hk.
  now rewrite Hk.
Qed.

(** *** The parts of [urlObjectToString] *)

Lemma step_protocol_fields (o : bag) (u : Uri.t) :
  Uri.pathname (step_protocol o u) = Uri.pathname u
  /\ Uri.host (step_protocol o u) = Uri.host u
  /\ Uri.hash (step_protocol o u) = Uri.hash u.
Proof.
  unfold step_protocol.
  destruct (negb _); [|now repeat split].
  destruct (truthy _); now repeat split.
Qed.

(** The authority part leaves the path of [url] as it is, and the local
    [pathname] differs from it only when it is [/]; both start with [/]
    when the path of [url] does. *)
Lemma step_authority_fields (o : bag) (u : Uri.t) :
  Uri.pathname (fst (step_authority o u)) = Uri.pathname u
  /\ Uri.protocol (fst (step_authority o u)) = Uri.protocol u
  /\ Uri.hash (fst (step_authority o u)) = Uri.hash u
  /\ (snd (step_authority o u) = Uri.pathname u
      \/ (Uri.pathname u = str "/"
          /\ exists rest, snd (step_authority o u) = code "/" :: rest))
  /\ (truthy (Uri.host u) = true ->
      fst (step_authority o u) = u).
Proof.
  unfold step_authority.
  destruct (negb (truthy (Uri.host u))) eqn:Hh.
  - destruct (_ && _).
    + cbn [fst snd].
      match goal with
      | |- context [parseStandardURIString ?x] =>
          destruct (pathname_slash x) as [rest Hrest];
          set (parsed := parseStandardURIString x) in *
      end.
      destruct (truthy (Uri.host parsed));
        (split; [reflexivity|]; split; [reflexivity|]; split; [reflexivity|];
         split; [|intros X; rewrite X in Hh; discriminate]);
        (destruct (jsstring_eqb (Uri.pathname u) (str "/")) eqn:E;
         [|now left]);
        apply jsstring_eqb_eq in E; cbn [andb];
        (destruct (negb (jsstring_eqb (Uri.pathname parsed) (str "/")));
         [|now left]);
        right; (split; [assumption|]); now exists rest.
    + cbn [fst snd]. repeat split; try reflexivity; try (now left).
  - cbn [fst snd]. repeat split; try reflexivity. now left.
Qed.

Lemma step_jwt_fields (o : bag) (u : Uri.t) :
  Uri.pathname (step_jwt o u) = Uri.pathname u
  /\ Uri.protocol (step_jwt o u) = Uri.protocol u
  /\ Uri.host (step_jwt o u) = Uri.host u
  /\ Uri.hash (step_jwt o u) = Uri.hash u.
Proof.
  unfold step_jwt. destruct (truthy _); [|now repeat split].
  destruct (_ && _); now repeat split.
Qed.

(** One round of the loop keeps what the fragment starts with, and a
    fragment that is empty or starts with [#] stays so. *)
Lemma add_overrides_hash (prefix : jsstring)
  (obj : option (UrlProperties.object V)) (log : list jsstring)
  (hash : jsstring) :
  let hash' :=
    snd (add_overrides JSON_stringify encodeURIComponent prefix obj
           (log, hash)) in
  startsWith hash hash' = true
  /\ (hash = [] \/ startsWith (str "#") hash = true ->
      hash' = [] \/ startsWith (str "#") hash' = true)
  /\ (snd (_objectToURLParamsArray JSON_stringify encodeURIComponent obj) = []
      -> hash' = hash).
Proof.
  cbv zeta. unfold add_overrides.
  destruct (_objectToURLParamsArray _ _ obj) as [w [|x ps]]; cbn [snd].
  - split; [|split].
    + rewrite <- (app_nil_r hash) at 2. apply startsWith_app.
    + trivial.
    + reflexivity.
  - destruct hash as [|c hash]; cbn [nonempty snd].
    + split; [reflexivity|]. split; [|discriminate].
      intros _. right. apply startsWith_app.
    + split; [apply startsWith_app|]. split; [|discriminate].
      intros [X|X]; [discriminate|]. right. now apply startsWith_app_l.
Qed.

Lemma startsWith_trans (a b c : jsstring) :
  startsWith a b = true -> startsWith b c = true -> startsWith a c = true.
Proof.
  intros H1 H2. destruct (startsWith_inv _ _ H1) as [r ->].
  destruct (startsWith_inv _ _ H2) as [t ->].
  rewrite <- app_assoc. apply startsWith_app.
Qed.

(** The record, by its parts: the fragment part changes the fragment only,
    and only by adding to it. *)
Lemma url_record_parts (o : bag) (tmp : jsstring) :
  let u0 := parseStandardURIString (_fixURIStringScheme tmp) in
  let u1 := step_protocol o u0 in
  let u2 := fst (step_authority o u1) in
  let p := snd (step_authority o u1) in
  let u4 := step_jwt o (step_room o u2 p) in
  exists h : jsstring,
    snd (record_of o tmp) = set_hash u4 h
    /\ startsWith (Uri.hash u4) h = true
    /\ (Uri.hash u4 = [] \/ startsWith (str "#") (Uri.hash u4) = true ->
        h = [] \/ startsWith (str "#") h = true).
Proof.
  cbv zeta. unfold url_record.
  destruct (step_authority o _) as [u2 p]. cbn [fst snd].
  set (u4 := step_jwt o (step_room o u2 p)).
  unfold step_overrides. cbn [snd].
  eexists. split; [reflexivity|].
  set (h0 := Uri.hash u4).
  set (ob1 := or_object (or_object (UrlProperties.configOverwrite o) _) _).
  set (ob2 :=
         or_object (or_object (UrlProperties.interfaceConfigOverwrite o) _) _).
  set (ob3 := or_object (or_object (UrlProperties.devicesOverwrite o) _) _).
  destruct (add_overrides _ _ (str "config") ob1 ([], h0)) as [l1 h1] eqn:E1.
  destruct (add_overrides _ _ (str "interfaceConfig") ob2 (l1, h1))
    as [l2 h2] eqn:E2.
  destruct (add_overrides _ _ (str "devices") ob3 (l2, h2)) as [l3 h3] eqn:E3.
  cbn [snd].
  pose proof (add_overrides_hash (str "config") ob1 [] h0) as A1.
  pose proof (add_overrides_hash (str "interfaceConfig") ob2 l1 h1) as A2.
  pose proof (add_overrides_hash (str "devices") ob3 l2 h2) as A3.
  cbv zeta in A1, A2, A3. rewrite E1 in A1. rewrite E2 in A2.
  rewrite E3 in A3. cbn [snd] in A1, A2, A3.
  destruct A1 as (S1 & P1 & _), A2 as (S2 & P2 & _), A3 as (S3 & P3 & _).
  split.
  - exact (startsWith_trans _ _ _ (startsWith_trans _ _ _ S1 S2) S3).
  - intros H. exact (P3 (P2 (P1 H))).
Qed.

Lemma protocol_parse_token (s p : jsstring) :
  Uri.protocol (parseStandardURIString s) = Some p ->
  exists b : jsstring, p = b ++ str ":".
Proof.
  destruct (parse_stages s) as (-> & _). unfold exec_URI_PROTOCOL.
  destruct (scheme_at _) as [n|] eqn:E; [|discriminate].
  intros H. injection H as <-.
  destruct (scheme_at_inv _ _ E) as [_ Ht].
  destruct (is_scheme_lower _ Ht) as [H1 _].
  destruct (is_scheme_inv _ H1) as (c & b & -> & _). now exists (c :: b).
Qed.

Lemma step_protocol_cases (o : bag) (u : Uri.t) :
  step_protocol o u = u
  \/ exists p, step_protocol o u = set_protocol u (Some p).
Proof.
  unfold step_protocol. destruct (negb _); [|now left].
  destruct (truthy _); [right; eexists; reflexivity | now left].
Qed.

Lemma step_jwt_cases (o : bag) (u : Uri.t) :
  step_jwt o u = u \/ exists q, step_jwt o u = set_search u q.
Proof.
  unfold step_jwt. destruct (truthy _); [|now left].
  destruct (_ && _); [right; eexists; reflexivity | now left].
Qed.

(** X19: With a room in the bag, [roomName] before [room], the path of the
    record ends with [/] and the room. *)
Theorem url_record_room (o : bag) (tmp r : jsstring) :
  or_else (UrlProperties.roomName o) (UrlProperties.room o) = Some r ->
  r <> [] ->
  endsWith (str "/" ++ r) (Uri.pathname (snd (record_of o tmp))) = true.
Proof.
  intros Hr Hne.
  destruct (url_record_parts o tmp) as (h & -> & _). cbv zeta.
  set (u1 := step_protocol o _).
  destruct (step_authority_fields o u1) as (Hx & _ & _ & Hp & _).
  set (u2 := fst (step_authority o u1)) in *.
  set (p := snd (step_authority o u1)) in *.
  cbn [set_hash Uri.pathname].
  destruct (step_jwt_fields o (step_room o u2 p)) as (-> & _).
  unfold step_room. cbn [set_pathname Uri.pathname]. rewrite Hr.
  assert (Ht : truthy (Some r) = true) by (destruct r; [contradiction|easy]).
  rewrite Ht. cbn [andb or_empty].
  destruct (endsWith (str "/") (Uri.pathname u2)) eqn:E1; cbn [orb].
  - destruct (endsWith (str "/") p) eqn:E2.
    + destruct (endsWith_inv _ _ E2) as [q ->].
      rewrite <- app_assoc. apply endsWith_app.
    + rewrite <- app_assoc. apply endsWith_app.
  - destruct (endsWith (str "/" ++ r) (Uri.pathname u2)) eqn:E3; cbn [negb].
    + destruct Hp as [-> | [Hp _]].
      * now rewrite <- Hx.
      * rewrite Hx, Hp in E1. discriminate.
    + destruct (endsWith (str "/") p) eqn:E2.
      * destruct (endsWith_inv _ _ E2) as [q ->].
        rewrite <- app_assoc. apply endsWith_app.
      * rewrite <- app_assoc. apply endsWith_app.
Qed.

(** X20: The path of the record starts with [/]. *)
Theorem url_record_pathname (o : bag) (tmp : jsstring) :
  startsWith (str "/") (Uri.pathname (snd (record_of o tmp))) = true.
Proof.
  destruct (url_record_parts o tmp) as (h & -> & _). cbv zeta.
  set (u0 := parseStandardURIString _).
  destruct (step_protocol_fields o u0) as (H1 & _).
  set (u1 := step_protocol o u0) in *.
  destruct (step_authority_fields o u1) as (Hx & _ & _ & Hp & _).
  set (u2 := fst (step_authority o u1)) in *.
  set (p := snd (step_authority o u1)) in *.
  cbn [set_hash Uri.pathname].
  destruct (step_jwt_fields o (step_room o u2 p)) as (-> & _).
  assert (P : startsWith (str "/") p = true).
  { destruct Hp as [-> | (_ & rest & ->)]; [|apply (startsWith_app (str "/"))].
    rewrite H1. subst u0.
    destruct (pathname_slash (_fixURIStringScheme tmp)) as [rest ->].
    apply (startsWith_app (str "/")). }
  unfold step_room. cbn [set_pathname Uri.pathname].
  destruct (_ && _); [|exact P].
  apply startsWith_app_l.
  destruct (endsWith (str "/") p); [exact P | now apply startsWith_app_l].
Qed.

(** X21: The protocol of the record ends with [:]; the record has none only when
    neither the string nor the bag gives one. *)
Theorem url_record_protocol (o : bag) (tmp : jsstring) :
  match Uri.protocol (snd (record_of o tmp)) with
  | Some p => endsWith (str ":") p = true
  | None =>
      Uri.protocol (parseStandardURIString (_fixURIStringScheme tmp)) = None
      /\ truthy (or_else (UrlProperties.protocol o) (UrlProperties.scheme o))
         = false
  end.
Proof.
  destruct (url_record_parts o tmp) as (h & -> & _). cbv zeta.
  set (u0 := parseStandardURIString _).
  set (u1 := step_protocol o u0).
  destruct (step_authority_fields o u1) as (_ & Hq & _).
  set (u2 := fst (step_authority o u1)) in *.
  set (p := snd (step_authority o u1)) in *.
  cbn [set_hash Uri.protocol].
  destruct (step_jwt_fields o (step_room o u2 p)) as (_ & -> & _).
  unfold step_room. cbn [set_pathname Uri.protocol]. rewrite Hq.
  subst u1. unfold step_protocol.
  destruct (Uri.protocol u0) as [q|] eqn:E.
  - destruct (protocol_parse_token _ _ E) as [b ->].
    cbn [truthy].
    replace (nonempty (b ++ str ":")) with true by (now destruct b).
    cbn [negb]. rewrite E. apply endsWith_app.
  - cbn [truthy negb].
    destruct (truthy (or_else _ _)) eqn:T.
    + cbn [set_protocol Uri.protocol].
      set (bp := or_empty (or_else _ _)).
      destruct (endsWith (str ":") bp) eqn:E1;
        [exact E1 | apply endsWith_app].
    + rewrite E. now split.
Qed.

Lemma step_jwt_has (o : bag) (u : Uri.t) :
  truthy (UrlProperties.jwt o) = true ->
  indexOf (str "?jwt=") (Uri.search (step_jwt o u)) <> -1
  \/ indexOf (str "&jwt=") (Uri.search (step_jwt o u)) <> -1.
Proof.
  intros Hj. unfold step_jwt. rewrite Hj.
  destruct (indexOf (str "?jwt=") (Uri.search u) =? -1) eqn:E1;
    [|left; now apply Z.eqb_neq].
  destruct (indexOf (str "&jwt=") (Uri.search u) =? -1) eqn:E2;
    [|right; now apply Z.eqb_neq].
  cbn [andb set_search Uri.search].
  set (q := if startsWith (str "?") (Uri.search u) then Uri.search u
            else str "?" ++ Uri.search u).
  assert (Hq : exists r, q = str "?" ++ r).
  { subst q. destruct (startsWith _ _) eqn:S;
      [now apply startsWith_inv in S | now eexists]. }
  destruct Hq as [r Hq].
  destruct (len q =? 1) eqn:L.
  - left. apply Z.eqb_eq in L. rewrite Hq in L |- *.
    destruct r; [|unfold len in L; cbn [length str app map
                                          list_ascii_of_string] in L; lia].
    apply (indexOf_found (str "?jwt=") [] (or_empty (UrlProperties.jwt o))).
  - right. rewrite <- app_assoc.
    apply (indexOf_found (str "&jwt=") q (or_empty (UrlProperties.jwt o))).
Qed.

(** X22: With a [jwt] in the bag, the query of the record has a [jwt]
    parameter. *)
Theorem url_record_jwt (o : bag) (tmp : jsstring) :
  truthy (UrlProperties.jwt o) = true ->
  indexOf (str "?jwt=") (Uri.search (snd (record_of o tmp))) <> -1
  \/ indexOf (str "&jwt=") (Uri.search (snd (record_of o tmp))) <> -1.
Proof.
  intros Hj.
  destruct (url_record_search V JSON_stringify encodeURIComponent o tmp)
    as (u & _ & ->).
  now apply step_jwt_has.
Qed.

(** X23: The fragment of the record starts with the parsed fragment, and it is
    empty or starts with [#]. *)
Theorem url_record_hash (o : bag) (tmp : jsstring) :
  let h0 := Uri.hash (parseStandardURIString (_fixURIStringScheme tmp)) in
  let h := Uri.hash (snd (record_of o tmp)) in
  startsWith h0 h = true /\ (h = [] \/ startsWith (str "#") h = true).
Proof.
  cbv zeta.
  destruct (url_record_parts o tmp) as (h & -> & Hs & Hk). cbv zeta in *.
  set (u0 := parseStandardURIString _) in *.
  destruct (step_protocol_fields o u0) as (_ & _ & H1).
  set (u1 := step_protocol o u0) in *.
  destruct (step_authority_fields o u1) as (_ & _ & H2 & _).
  set (u2 := fst (step_authority o u1)) in *.
  set (p := snd (step_authority o u1)) in *.
  destruct (step_jwt_fields o (step_room o u2 p)) as (_ & _ & _ & H3).
  rewrite H3 in Hs, Hk. unfold step_room in Hs, Hk.
  cbn [set_pathname Uri.hash] in Hs, Hk. rewrite H2, H1 in Hs, Hk.
  cbn [set_hash Uri.hash]. split; [exact Hs|]. apply Hk.
  subst u0.
  destruct (parse_stages (_fixURIStringScheme tmp))
    as (_ & _ & _ & _ & _ & ->).
  cbv zeta.
  match goal with
  | |- context [if startsWith (str "#") ?x then _ else _] =>
      destruct (startsWith (str "#") x) eqn:E
  end; [now right | now left].
Qed.

(** X24: What the string gives wins over the bag: a parsed protocol is the
    protocol of the record, and a parsed host that is not empty is its host,
    with its hostname and port. *)
Theorem url_record_precedence (o : bag) (tmp : jsstring) :
  let u0 := parseStandardURIString (_fixURIStringScheme tmp) in
  let u := snd (record_of o tmp) in
  (forall p, Uri.protocol u0 = Some p -> Uri.protocol u = Some p)
  /\ (truthy (Uri.host u0) = true ->
      Uri.host u = Uri.host u0 /\ Uri.hostname u = Uri.hostname u0
      /\ Uri.port u = Uri.port u0).
Proof.
  cbv zeta.
  destruct (url_record_parts o tmp) as (h & -> & _). cbv zeta.
  set (u0 := parseStandardURIString _).
  set (u1 := step_protocol o u0).
  destruct (step_authority_fields o u1) as (_ & Hq & _ & _ & Hsame).
  set (u2 := fst (step_authority o u1)) in *.
  set (p := snd (step_authority o u1)) in *.
  split.
  - intros q E. cbn [set_hash Uri.protocol].
    destruct (step_jwt_fields o (step_room o u2 p)) as (_ & -> & _).
    unfold step_room. cbn [set_pathname Uri.protocol]. rewrite Hq.
    subst u1. unfold step_protocol. rewrite E.
    destruct (protocol_parse_token _ _ E) as [b ->].
    cbn [truthy].
    replace (nonempty (b ++ str ":")) with true by (now destruct b).
    cbn [negb]. exact E.
  - intros Hh.
    assert (H1 : u1 = u0 \/ exists q, u1 = set_protocol u0 (Some q))
      by apply step_protocol_cases.
    assert (Hh1 : truthy (Uri.host u1) = true)
      by (destruct H1 as [-> | [q ->]]; exact Hh).
    specialize (Hsame Hh1). subst u2. rewrite Hsame.
    cbn [set_hash Uri.host Uri.hostname Uri.port].
    destruct (step_jwt_cases o (step_room o u1 p)) as [-> | [q ->]];
      unfold step_room;
      cbn [set_search set_pathname Uri.host Uri.hostname Uri.port];
      destruct H1 as [-> | [q' ->]]; now repeat split.
Qed.

End RecordProperties.

Lemma url_record_room_witness :
  endsWith (str "/" ++ str "r")
    (Uri.pathname
       (snd (url_record (fun _ : unit => Normal None) (fun s => Normal s)
               (bag_room_jwt (str "r") (str "abc"))
               (str "https://meet.example.com/tenant/")))) = true.
Proof.
  apply (url_record_room unit (fun _ => Normal None) (fun s => Normal s)
           (bag_room_jwt (str "r") (str "abc"))
           (str "https://meet.example.com/tenant/") (str "r"));
    [reflexivity | discriminate].
Defined.

Lemma url_record_jwt_witness :
  let q :=
    Uri.search
      (snd (url_record (fun _ : unit => Normal None) (fun s => Normal s)
              (bag_room_jwt (str "r") (str "abc"))
              (str "https://meet.example.com/r?jwt=old"))) in
  indexOf (str "?jwt=") q <> -1 \/ indexOf (str "&jwt=") q <> -1.
Proof.
  apply (url_record_jwt unit (fun _ => Normal None) (fun s => Normal s)
           (bag_room_jwt (str "r") (str "abc"))
           (str "https://meet.example.com/r?jwt=old")).
  reflexivity.
Defined.

Lemma url_record_precedence_witness :
  let u :=
    snd (url_record (fun _ : unit => Normal None) (fun s => Normal s)
           (UrlProperties.mk None None None (Some (str "http")) None
              (Some (str "other.example.com")) None None
              (Some (str "org.jitsi.meet:")) None None None None None None
              None None None None None)
           (str "https://meet.example.com:8443/r")) in
  Uri.protocol u = Some (str "https:")
  /\ Uri.host u = Some (str "meet.example.com:8443")
  /\ Uri.hostname u = Some (str "meet.example.com")
  /\ Uri.port u = Some (str "8443").
Proof.
  cbv zeta.
  pose proof (url_record_precedence unit (fun _ => Normal None)
                (fun s => Normal s)
                (UrlProperties.mk None None None (Some (str "http")) None
                   (Some (str "other.example.com")) None None
                   (Some (str "org.jitsi.meet:")) None None None None None
                   None None None None None None)
                (str "https://meet.example.com:8443/r")) as [P H].
  split; [exact (P (str "https:") eq_refl)|].
  exact (H eq_refl).
Defined.

Lemma objectToURLParamsArray_all_witness :
  _objectToURLParamsArray
    (fun b : bool => Normal (Some (str (if b then "true" else "false"))))
    (fun s => Normal s)
    (Some [(str "startWithAudioMuted", true); (str "prejoin", false)])
  = ([], [str "startWithAudioMuted=true"; str "prejoin=false"]).
Proof.
  apply (objectToURLParamsArray_all bool
           (fun b : bool => Normal (Some (str (if b then "true" else "false"))))
           (fun s => Normal s)
           [(str "startWithAudioMuted", true); (str "prejoin", false)]
           (fun b : bool => str (if b then "true" else "false"))).
  intros kv _. reflexivity.
Defined.

